(** * lottodia: the CSV ingestion and query pipeline of [src/app.js]

    A shallow embedding of [parseCSV], [uniq], [escapeHtml],
    [rowsForCurrentCategory], [populateLotterySelect], [applyFilters],
    [tag], [cardHtml], [render], [setCategory], [loadData] and the
    listeners, followed by the properties the specification states about
    them and by further properties of the code.

    JavaScript strings are sequences of UTF-16 code units; they are modelled
    as [list N].  The two built-ins whose result depends on Unicode tables
    ([String.prototype.toLowerCase] and [String.prototype.localeCompare]) are
    an interface of the host, the class [JsHost] below. *)

From Stdlib Require Import ZArith NArith List Bool Lia Ascii String.
From Stdlib Require Import Sorting.Sorted Sorting.Permutation.
From stdpp Require Import gmap list.

Local Open Scope N_scope.
Local Open Scope list_scope.

(* ================================================================= *)
(** ** Strings *)

Abbreviation jsstring := (list N).

(** An ASCII literal as a string of code units. *)
Definition js (s : string) : jsstring :=
  List.map N_of_ascii (list_ascii_of_string s).

Definition LF : N := 10.
Definition DQ : N := 34.
Definition COMMA : N := 44.
Definition SP : N := 32.

(** The code points ECMAScript calls WhiteSpace or LineTerminator: what
    [trim] removes. *)
Definition isWhiteSpace (c : N) : bool :=
  ((9 <=? c) && (c <=? 13)) || (c =? 32) || (c =? 160) || (c =? 5760)
  || ((8192 <=? c) && (c <=? 8202)) || (c =? 8232) || (c =? 8233)
  || (c =? 8239) || (c =? 8287) || (c =? 12288) || (c =? 65279).

Fixpoint trimStart (s : jsstring) : jsstring :=
  match s with
  | c :: rest => if isWhiteSpace c then trimStart rest else s
  | [] => []
  end.

Definition trimEnd (s : jsstring) : jsstring :=
  rev (trimStart (rev s)).

(** [s.trim()] *)
Definition trim (s : jsstring) : jsstring := trimEnd (trimStart s).

(** Adds a code unit to the piece under construction. *)
Definition consHead (c : N) (pieces : list jsstring) : list jsstring :=
  match pieces with
  | p :: more => (c :: p) :: more
  | [] => [[c]]
  end.

(** [s.split(sep)] for a one-code-unit separator string: the empty string
    gives one empty piece. *)
Fixpoint splitOn (sep : N) (s : jsstring) : list jsstring :=
  match s with
  | [] => [[]]
  | c :: rest =>
      if c =? sep then [] :: splitOn sep rest
      else consHead c (splitOn sep rest)
  end.

(** [pieces.join(sep)] *)
Fixpoint join (sep : jsstring) (pieces : list jsstring) : jsstring :=
  match pieces with
  | [] => []
  | [p] => p
  | p :: more => p ++ sep ++ join sep more
  end.

Fixpoint startsWith (s q : jsstring) : bool :=
  match q, s with
  | [], _ => true
  | _ :: _, [] => false
  | b :: q', a :: s' => (a =? b) && startsWith s' q'
  end.

(** [s.includes(q)] *)
Fixpoint includes (s q : jsstring) : bool :=
  startsWith s q
  || match s with
     | [] => false
     | _ :: rest => includes rest q
     end.

(** A string is truthy when it is not empty. *)
Definition truthy (s : jsstring) : bool :=
  match s with [] => false | _ :: _ => true end.

(** [v || d] where [v] is a string or [undefined] ([None]). *)
Definition orElse (v : option jsstring) (d : jsstring) : jsstring :=
  match v with
  | Some s => if truthy s then s else d
  | None => d
  end.

(* ================================================================= *)
(** ** The host's Unicode built-ins *)

Class JsHost := {
  (** [s.toLowerCase()] *)
  toLowerCase : jsstring -> jsstring;
  (** [a.localeCompare(b)]: negative, zero or positive *)
  localeCompare : jsstring -> jsstring -> Z;
  (** a collation is a total preorder, which is what makes the comparator
      handed to [sort] a consistent one *)
  localeCompare_total :
    forall a b, (0 < localeCompare a b)%Z -> (localeCompare b a <= 0)%Z;
  localeCompare_trans :
    forall a b c, (localeCompare a b <= 0)%Z -> (localeCompare b c <= 0)%Z ->
                  (localeCompare a c <= 0)%Z
}.

(** The host restricted to Basic Latin, used to run the model on concrete
    ASCII inputs: on such strings [toLowerCase] only moves [A-Z] to [a-z]. *)
Definition asciiLowerUnit (c : N) : N :=
  if (65 <=? c) && (c <=? 90) then c + 32 else c.

Definition asciiLower (s : jsstring) : jsstring := List.map asciiLowerUnit s.

(** Code-unit order, a collation that satisfies the comparator laws. *)
Fixpoint codeUnitCompare (a b : jsstring) : Z :=
  match a, b with
  | [], [] => 0%Z
  | [], _ :: _ => (-1)%Z
  | _ :: _, [] => 1%Z
  | x :: a', y :: b' =>
      if x <? y then (-1)%Z
      else if y <? x then 1%Z
      else codeUnitCompare a' b'
  end.

(* ================================================================= *)
(** ** parseCSV *)

(** The lookahead of the separator pattern: writing Q for the double quote,
    it is (?=(?:(?:[^Q]*Q){2})*[^Q]*$), so the rest of the line, up to its
    end, is made of pairs of quotes with quote-free text around them.
    [inPair] tells that the first quote of a pair has been read. *)
Fixpoint lookaheadFrom (inPair : bool) (rest : jsstring) : bool :=
  match rest with
  | [] => negb inPair
  | c :: rest' =>
      if c =? DQ then lookaheadFrom (negb inPair) rest'
      else lookaheadFrom inPair rest'
  end.

Definition lookahead (rest : jsstring) : bool := lookaheadFrom false rest.

(** The separator pattern matches at a code unit [c] followed by [rest]. *)
Definition sepMatches (c : N) (rest : jsstring) : bool :=
  (c =? COMMA) && lookahead rest.

(** [r.split(...)] with that pattern: it has no capture group and matches
    one code unit, so the pieces are what lies between the matches. *)
Fixpoint splitCells (line : jsstring) : list jsstring :=
  match line with
  | [] => [[]]
  | c :: rest =>
      if sepMatches c rest then [] :: splitCells rest
      else consHead c (splitCells rest)
  end.

(** [v.replace(/^Q|Q$/g, empty)], Q the double quote: the scan goes left to
    right; the first alternative matches a quote at index 0 only, the second
    a quote that is the last code unit. *)
Fixpoint replaceQuotesFrom (atStart : bool) (v : jsstring) : jsstring :=
  match v with
  | [] => []
  | c :: rest =>
      if (c =? DQ) && (atStart || negb (truthy rest))
      then replaceQuotesFrom false rest
      else c :: replaceQuotesFrom false rest
  end.

Definition replaceQuotes (v : jsstring) : jsstring := replaceQuotesFrom true v.

(** The callback of the inner [map]: [replace] then [trim]. *)
Definition cleanCell (v : jsstring) : jsstring := trim (replaceQuotes v).

(** [(r) => r.split(...).map(...)] *)
Definition splitRow (r : jsstring) : list jsstring :=
  List.map cleanCell (splitCells r).

(** One parsed row, the object literal [parseCSV] returns for it. *)
Record LotRecord := mkLotRecord {
  categoria : jsstring;
  fecha : jsstring;
  loteria : jsstring;
  horario : jsstring;
  triple : jsstring;
  terminal_a_b : jsstring;
  terminal_c : jsstring;
  numero : jsstring;
  signo : jsstring;
  cacho : jsstring;
  animal : jsstring
}.

(** [headers.forEach((h, i) => (o[h] = r[i] || empty))] on [o = {}]: a later
    header overwrites an earlier equal one; cells beyond the headers are
    not read.  Of [o] the code reads the eleven schema keys only, none of
    which the prototype of an object defines. *)
Fixpoint assignFrom (i : nat) (headers : list jsstring) (r : list jsstring)
  (o : gmap jsstring jsstring) : gmap jsstring jsstring :=
  match headers with
  | [] => o
  | h :: rest => assignFrom (S i) rest r (<[h := orElse (r !! i) []]> o)
  end.

Definition assignCells (headers : list jsstring) (r : list jsstring)
  : gmap jsstring jsstring :=
  assignFrom 0 headers r ∅.

(** The callback of [rows.map] that builds the record. *)
Definition rowToRecord (headers : list jsstring) (r : list jsstring)
  : LotRecord :=
  let o := assignCells headers r in
  {| categoria := orElse (o !! js "categoria") (js "loteria");
     fecha := orElse (o !! js "fecha") [];
     loteria := orElse (o !! js "loteria") [];
     horario := orElse (o !! js "horario") [];
     triple := orElse (o !! js "triple") [];
     terminal_a_b := orElse (o !! js "terminal_a_b") [];
     terminal_c := orElse (o !! js "terminal_c") [];
     numero := orElse (o !! js "numero") [];
     signo := orElse (o !! js "signo") [];
     cacho := orElse (o !! js "cacho") [];
     animal := orElse (o !! js "animal") [] |}.

(** What a call can throw. *)
Inductive JsError := TypeError.

(** [rows.shift()]: [undefined] ([None]) on an empty array. *)
Definition shift {A} (rows : list A) : option A * list A :=
  match rows with
  | [] => (None, [])
  | x :: rest => (Some x, rest)
  end.

(** [[...new Set(arr)]]: the values in the order of their first
    occurrence. *)
Fixpoint spreadSetFrom (seen arr : list jsstring) : list jsstring :=
  match arr with
  | [] => []
  | x :: rest =>
      if bool_decide (x ∈ seen) then spreadSetFrom seen rest
      else x :: spreadSetFrom (x :: seen) rest
  end.

Definition spreadSet (arr : list jsstring) : list jsstring :=
  spreadSetFrom [] arr.

(** [uniq(arr)]: [filter(Boolean)] drops the empty string. *)
Definition uniq (arr : list jsstring) : list jsstring :=
  List.filter truthy (spreadSet arr).

(** [arr.sort(cmp)].  ECMAScript makes the sort stable, so with a consistent
    comparator the result is the one stable sorted arrangement, whatever
    algorithm the engine runs; insertion from the right computes it. *)
Fixpoint insertBy (cmp : jsstring -> jsstring -> Z) (x : jsstring)
  (l : list jsstring) : list jsstring :=
  match l with
  | [] => [x]
  | y :: l' =>
      if (cmp x y <=? 0)%Z then x :: y :: l' else y :: insertBy cmp x l'
  end.

Definition sortBy (cmp : jsstring -> jsstring -> Z) (l : list jsstring)
  : list jsstring :=
  fold_right (insertBy cmp) [] l.

(** [Object.values(r)]: the values in the order the literal lists its keys. *)
Definition Object_values (r : LotRecord) : list jsstring :=
  [categoria r; fecha r; loteria r; horario r; triple r; terminal_a_b r;
   terminal_c r; numero r; signo r; cacho r; animal r].

Definition Object_keys : list jsstring :=
  [js "categoria"; js "fecha"; js "loteria"; js "horario"; js "triple";
   js "terminal_a_b"; js "terminal_c"; js "numero"; js "signo"; js "cacho";
   js "animal"].

(* ================================================================= *)
(** ** The page: the three globals and the elements of [els] *)

(** What the code reads and writes of the elements.  [lotSel_options] are
    the lottery names [populateLotterySelect] last built the markup of the
    select from, after the fixed first option, whose value is the empty
    string; the code never reads the options back, and what the browser
    makes of the markup is not part of the model.  The cards of [grid] are
    the records its markup was built from.  The badge and the section title, two optional elements
    that only receive text, are left out. *)
Record Els := mkEls {
  status_text : jsstring;
  lotSel_value : jsstring;
  lotSel_options : list jsstring;
  q_value : jsstring;
  q_placeholder : jsstring;
  grid_display : bool;
  grid_cards : list LotRecord;
  empty_display : bool;
  empty_text : jsstring;
  err_display : bool;
  err_text : jsstring;
  lastLoad_text : jsstring;
  totalRows_text : nat;
  countPill_text : nat;
  refreshBtn_disabled : bool
}.

Record State := mkState {
  RAW : list LotRecord;
  FILTERED : list LotRecord;
  CURRENT_CAT : jsstring;
  els : Els
}.

Definition set_RAW (v : list LotRecord) (st : State) : State :=
  mkState v (FILTERED st) (CURRENT_CAT st) (els st).
Definition set_FILTERED (v : list LotRecord) (st : State) : State :=
  mkState (RAW st) v (CURRENT_CAT st) (els st).
Definition set_CURRENT_CAT (v : jsstring) (st : State) : State :=
  mkState (RAW st) (FILTERED st) v (els st).
Definition on_els (f : Els -> Els) (st : State) : State :=
  mkState (RAW st) (FILTERED st) (CURRENT_CAT st) (f (els st)).

Definition set_status (v : jsstring) (e : Els) : Els :=
  mkEls v (lotSel_value e) (lotSel_options e) (q_value e) (q_placeholder e)
    (grid_display e) (grid_cards e) (empty_display e) (empty_text e)
    (err_display e) (err_text e) (lastLoad_text e) (totalRows_text e)
    (countPill_text e) (refreshBtn_disabled e).
Definition set_lotSel_value (v : jsstring) (e : Els) : Els :=
  mkEls (status_text e) v (lotSel_options e) (q_value e) (q_placeholder e)
    (grid_display e) (grid_cards e) (empty_display e) (empty_text e)
    (err_display e) (err_text e) (lastLoad_text e) (totalRows_text e)
    (countPill_text e) (refreshBtn_disabled e).
Definition set_lotSel_innerHTML (opts : list jsstring) (e : Els) : Els :=
  mkEls (status_text e) [] opts (q_value e) (q_placeholder e)
    (grid_display e) (grid_cards e) (empty_display e) (empty_text e)
    (err_display e) (err_text e) (lastLoad_text e) (totalRows_text e)
    (countPill_text e) (refreshBtn_disabled e).
Definition set_q (v p : jsstring) (e : Els) : Els :=
  mkEls (status_text e) (lotSel_value e) (lotSel_options e) v p
    (grid_display e) (grid_cards e) (empty_display e) (empty_text e)
    (err_display e) (err_text e) (lastLoad_text e) (totalRows_text e)
    (countPill_text e) (refreshBtn_disabled e).
Definition set_counts (total count : nat) (e : Els) : Els :=
  mkEls (status_text e) (lotSel_value e) (lotSel_options e) (q_value e)
    (q_placeholder e) (grid_display e) (grid_cards e) (empty_display e)
    (empty_text e) (err_display e) (err_text e) (lastLoad_text e) total
    count (refreshBtn_disabled e).
Definition set_grid (d : bool) (cards : list LotRecord) (e : Els) : Els :=
  mkEls (status_text e) (lotSel_value e) (lotSel_options e) (q_value e)
    (q_placeholder e) d cards (empty_display e) (empty_text e)
    (err_display e) (err_text e) (lastLoad_text e) (totalRows_text e)
    (countPill_text e) (refreshBtn_disabled e).
Definition set_empty (d : bool) (t : jsstring) (e : Els) : Els :=
  mkEls (status_text e) (lotSel_value e) (lotSel_options e) (q_value e)
    (q_placeholder e) (grid_display e) (grid_cards e) d t
    (err_display e) (err_text e) (lastLoad_text e) (totalRows_text e)
    (countPill_text e) (refreshBtn_disabled e).
Definition set_err (d : bool) (t : jsstring) (e : Els) : Els :=
  mkEls (status_text e) (lotSel_value e) (lotSel_options e) (q_value e)
    (q_placeholder e) (grid_display e) (grid_cards e) (empty_display e)
    (empty_text e) d t (lastLoad_text e) (totalRows_text e)
    (countPill_text e) (refreshBtn_disabled e).
Definition set_lastLoad (v : jsstring) (e : Els) : Els :=
  mkEls (status_text e) (lotSel_value e) (lotSel_options e) (q_value e)
    (q_placeholder e) (grid_display e) (grid_cards e) (empty_display e)
    (empty_text e) (err_display e) (err_text e) v (totalRows_text e)
    (countPill_text e) (refreshBtn_disabled e).
Definition set_refreshBtn_disabled (v : bool) (e : Els) : Els :=
  mkEls (status_text e) (lotSel_value e) (lotSel_options e) (q_value e)
    (q_placeholder e) (grid_display e) (grid_cards e) (empty_display e)
    (empty_text e) (err_display e) (err_text e) (lastLoad_text e)
    (totalRows_text e) (countPill_text e) v.

(** The page before the first load: the initial values of the globals and
    untouched elements. *)
Definition initialState : State :=
  mkState [] [] (js "loteria")
    (mkEls [] [] [] [] [] false [] false [] false [] [] 0 0 false).

(** What [fetch] and [res.text()] can produce: the promise rejects with an
    error carrying a message, or a response arrives with its [ok] flag and
    its body. *)
Inductive FetchResult :=
| NetworkFault (message : jsstring)
| Response (ok : bool) (body : jsstring).

Definition showError (msg : jsstring) (st : State) : State :=
  on_els (set_err true msg) st.

Definition hideError (st : State) : State :=
  on_els (set_err false []) st.

(** [rowsForCurrentCategory()] on given globals. *)
Definition forCategory (cat : jsstring) (raw : list LotRecord)
  : list LotRecord :=
  List.filter
    (fun r => bool_decide (orElse (Some (categoria r)) (js "loteria") = cat))
    raw.

Definition rowsForCurrentCategory (st : State) : list LotRecord :=
  forCategory (CURRENT_CAT st) (RAW st).

(** [render()] *)
Definition render (st : State) : State :=
  let st1 :=
    on_els (set_counts (length (RAW st)) (length (FILTERED st))) st in
  if negb (bool_decide (length (FILTERED st) ≠ 0%nat))
  then
    on_els (set_empty true (js "No hay resultados con esos filtros."))
      (on_els (set_grid false (grid_cards (els st1))) st1)
  else
    on_els (set_grid true (FILTERED st))
      (on_els (set_empty false (empty_text (els st1))) st1).

Section Program.
Context `{JsHost}.

(** The lines of the trimmed text, each split into cleaned cells. *)
Definition parseRows (text : jsstring) : list (list jsstring) :=
  List.map splitRow (splitOn LF (trim text)).

Definition parseCSV (text : jsstring) : JsError + list LotRecord :=
  match shift (parseRows text) with
  | (None, _) => inl TypeError (* [undefined.map] *)
  | (Some first, rows) =>
      let headers := List.map toLowerCase first in
      inr (List.map (rowToRecord headers) rows)
  end.

(** The lottery names offered by the select: what [populateLotterySelect]
    computes into [lots]. *)
Definition lotteryOptions (rows : list LotRecord) : list jsstring :=
  sortBy localeCompare (uniq (List.map loteria rows)).

(** Assigning [innerHTML] rebuilds the options from the markup of [lots];
    the first one, with the empty value, is then the selected one. *)
Definition populateLotterySelect (rows : list LotRecord) (st : State)
  : State :=
  on_els (set_lotSel_innerHTML (lotteryOptions rows)) st.

(** The callback of [base.filter] in [applyFilters], for given [lot]
    and [q]. *)
Definition filterCallback (lot q : jsstring) (r : LotRecord) : bool :=
  if truthy lot && negb (bool_decide (loteria r = lot)) then false
  else if negb (truthy q) then true
  else includes (toLowerCase (join [SP] (Object_values r))) q.

Definition queryFilter (lot q : jsstring) (base : list LotRecord)
  : list LotRecord :=
  List.filter (filterCallback lot q) base.

Definition applyFilters (st : State) : State :=
  let lot := lotSel_value (els st) in
  let q := toLowerCase (q_value (els st)) in
  let base := rowsForCurrentCategory st in
  render (set_FILTERED (queryFilter lot q base) st).

Definition placeholderFor (cat : jsstring) : jsstring :=
  if bool_decide (cat = js "animalitos")
  then js "Ej: 8:30 AM, 20, Cerdo, Guacharito..."
  else js "Ej: 8:00 AM, 775, Aries, terminal...".

Definition setCategory (cat : jsstring) (st : State) : State :=
  let st1 := set_CURRENT_CAT cat st in
  let st2 := on_els (set_lotSel_value []) st1 in
  let st3 := on_els (set_q [] (placeholderFor cat)) st2 in
  let base := rowsForCurrentCategory st3 in
  let st4 := populateLotterySelect base st3 in
  applyFilters st4.

(** The [catch] block of [loadData]. *)
Definition loadFailed (message : jsstring) (st : State) : State :=
  let st1 := showError message st in
  let st2 := on_els (set_status (js "Error cargando datos.")) st1 in
  render (set_FILTERED [] (set_RAW [] st2)).

(** [loadData()], run to completion on the outcome [res] of the fetch;
    [now] is the text of the clock at that time. *)
Definition loadData (res : FetchResult) (now : jsstring) (st : State)
  : State :=
  let st1 := hideError st in
  let st2 :=
    on_els (set_status (js "Cargando datos" ++ [8230])) st1 in
  let st3 := on_els (set_refreshBtn_disabled true) st2 in
  let st4 :=
    match res with
    | NetworkFault message => loadFailed message st3
    | Response false _ => loadFailed (js "No se pudo cargar el CSV") st3
    | Response true text =>
        match parseCSV text with
        | inl TypeError => loadFailed (js "TypeError") st3
        | inr records =>
            let a := set_RAW records st3 in
            let b := on_els (set_lastLoad now) a in
            let c :=
              on_els (set_status
                        (js "Listo. Datos cargados desde Google Sheets.")) b in
            setCategory (CURRENT_CAT c) c
        end
    end in
  on_els (set_refreshBtn_disabled false) st4.

(** The listeners: a change of the select and an input in the search box
    both run [applyFilters]; a click on a tab runs [setCategory] unless the
    tab has no category or is the active one. *)
Definition onLotSelChange (v : jsstring) (st : State) : State :=
  applyFilters (on_els (set_lotSel_value v) st).

Definition onQueryInput (v : jsstring) (st : State) : State :=
  applyFilters (on_els (set_q v (q_placeholder (els st))) st).

Definition onTabClick (cat : jsstring) (st : State) : State :=
  if negb (truthy cat) || bool_decide (cat = CURRENT_CAT st) then st
  else setCategory cat st.

(** The states the page goes through. *)
Inductive reachable : State -> Prop :=
| reach_init : reachable initialState
| reach_load res now st :
    reachable st -> reachable (loadData res now st)
| reach_select v st :
    reachable st -> reachable (onLotSelChange v st)
| reach_query v st :
    reachable st -> reachable (onQueryInput v st)
| reach_tab cat st :
    reachable st -> reachable (onTabClick cat st).

(** The text the specification says the search runs on: the ten fields
    from the date to the animal. *)
Definition specSearchText (r : LotRecord) : jsstring :=
  toLowerCase
    (join [SP] [fecha r; loteria r; horario r; triple r; terminal_a_b r;
                terminal_c r; numero r; signo r; cacho r; animal r]).

End Program.

(* ================================================================= *)
(** ** Markup *)

(** The replacement [escapeHtml] makes for one code unit: the five
    characters of its pattern become their entities. *)
Definition escapeUnit (c : N) : jsstring :=
  if c =? 38 then js "&amp;"
  else if c =? 60 then js "&lt;"
  else if c =? 62 then js "&gt;"
  else if c =? DQ then js "&quot;"
  else if c =? 39 then js "&#039;"
  else [c].

(** [escapeHtml(s)] on a string. *)
Definition escapeHtml (s : jsstring) : jsstring :=
  List.concat (List.map escapeUnit s).

(** An attribute value between its quotes. *)
Definition quoted (s : string) : jsstring := [DQ] ++ js s ++ [DQ].

(** [tag(label, value)] *)
Definition tag (label value : jsstring) : jsstring :=
  if negb (truthy value) then []
  else js "<span class=" ++ quoted "tag" ++ js "><b>" ++ label
       ++ js ":</b> " ++ escapeHtml value ++ js "</span>".

Definition labelNumero : jsstring := js "N" ++ [250] ++ js "mero".

(** [cardHtml(r)] under the active category [cat]; the literal keeps the
    line breaks and the indentation of the template. *)
Definition cardHtml (cat : jsstring) (r : LotRecord) : jsstring :=
  let isAnimalitos := bool_decide (cat = js "animalitos") in
  [LF]
  ++ js "    <div class=" ++ quoted "card" ++ js ">" ++ [LF]
  ++ js "      <div class=" ++ quoted "top" ++ js ">" ++ [LF]
  ++ js "        <div>" ++ [LF]
  ++ js "          <div class=" ++ quoted "lot" ++ js ">"
  ++ escapeHtml (orElse (Some (loteria r)) [8212]) ++ js "</div>" ++ [LF]
  ++ js "          <div class=" ++ quoted "date" ++ js ">"
  ++ escapeHtml (orElse (Some (fecha r)) []) ++ js "</div>" ++ [LF]
  ++ js "        </div>" ++ [LF]
  ++ js "        <div class=" ++ quoted "time" ++ js ">"
  ++ escapeHtml (orElse (Some (horario r)) []) ++ js "</div>" ++ [LF]
  ++ js "      </div>" ++ [LF]
  ++ js "      <div class=" ++ quoted "tags" ++ js ">" ++ [LF]
  ++ js "        "
  ++ (if isAnimalitos
      then tag labelNumero (numero r) ++ tag (js "Animal") (animal r)
      else
        [LF]
        ++ js "              " ++ tag (js "Triple") (triple r) ++ [LF]
        ++ js "              " ++ tag (js "Terminal A/B") (terminal_a_b r)
        ++ [LF]
        ++ js "              " ++ tag (js "Terminal C") (terminal_c r)
        ++ [LF]
        ++ js "              " ++ tag labelNumero (numero r) ++ [LF]
        ++ js "              " ++ tag (js "Signo") (signo r) ++ [LF]
        ++ js "              " ++ tag (js "Cacho") (cacho r) ++ [LF]
        ++ js "            ")
  ++ [LF]
  ++ js "      </div>" ++ [LF]
  ++ js "    </div>" ++ [LF]
  ++ js "  ".

(** [FILTERED.map(cardHtml).join(empty)], the markup [render] gives the
    grid. *)
Definition gridHtml (cat : jsstring) (cards : list LotRecord) : jsstring :=
  List.concat (List.map (cardHtml cat) cards).

(** The markup [populateLotterySelect] gives the select for [lots]. *)
Definition optionHtml (l : jsstring) : jsstring :=
  js "<option value=" ++ [DQ] ++ escapeHtml l ++ [DQ] ++ js ">"
  ++ escapeHtml l ++ js "</option>".

Definition optionsHtml (lots : list jsstring) : jsstring :=
  (js "<option value=" ++ [DQ; DQ] ++ js ">Todas</option>")
  ++ List.concat (List.map optionHtml lots).

(* ================================================================= *)
(** ** Notions the properties are stated with *)

Definition countQuotes (s : jsstring) : nat :=
  length (List.filter (fun c => c =? DQ) s).

(** The specification's rule for the separator, in its words: a comma not
    enclosed by an odd number of preceding quotes. *)
Definition specDelimiter (line : jsstring) (i : nat) : bool :=
  bool_decide (line !! i = Some COMMA)
  && Nat.even (countQuotes (take i line)).

(** The separator pattern matches at index [i] of [line]. *)
Definition isDelimiter (line : jsstring) (i : nat) : bool :=
  match drop i line with
  | c :: rest => sepMatches c rest
  | [] => false
  end.

(** Cutting a string at the indices [d] marks, which are left out. *)
Fixpoint cutFrom (d : nat -> bool) (i : nat) (s : jsstring)
  : list jsstring :=
  match s with
  | [] => [[]]
  | c :: rest =>
      if d i then [] :: cutFrom d (S i) rest
      else consHead c (cutFrom d (S i) rest)
  end.

(** The specification's rule for a cell, in its words: one leading and one
    trailing quote stripped if present. *)
Definition stripLeadingQuote (s : jsstring) : jsstring :=
  match s with
  | c :: rest => if c =? DQ then rest else s
  | [] => []
  end.

Fixpoint stripTrailingQuote (s : jsstring) : jsstring :=
  match s with
  | [] => []
  | c :: rest =>
      match rest with
      | [] => if c =? DQ then [] else [c]
      | _ :: _ => c :: stripTrailingQuote rest
      end
  end.

Definition stripOuterQuotes (s : jsstring) : jsstring :=
  stripTrailingQuote (stripLeadingQuote s).

(** The index of the last header equal to [key], counting from [i]. *)
Fixpoint lastIndexFrom (i : nat) (key : jsstring) (headers : list jsstring)
  : option nat :=
  match headers with
  | [] => None
  | h :: rest =>
      match lastIndexFrom (S i) key rest with
      | Some j => Some j
      | None => if bool_decide (h = key) then Some i else None
      end
  end.

(** The cell of a row that stands under the header [key]: none when the
    header is missing or the row is too short. *)
Definition cellUnder (headers cells : list jsstring) (key : jsstring)
  : option jsstring :=
  match lastIndexFrom 0 key headers with
  | Some i => cells !! i
  | None => None
  end.

(** Every record of a dataset has a category. *)
Definition categoriesSet (raw : list LotRecord) : Prop :=
  Forall (fun r => categoria r <> []) raw.

(** The code units that open or close markup: the angle brackets and the
    two quotes. *)
Definition isMarkup (c : N) : bool :=
  (c =? 60) || (c =? 62) || (c =? DQ) || (c =? 39).

Definition countUnits (p : N -> bool) (s : jsstring) : nat :=
  length (List.filter p s).

(** The fields a card shows as tags under a category. *)
Definition tagFields (cat : jsstring) (r : LotRecord) : list jsstring :=
  if bool_decide (cat = js "animalitos") then [numero r; animal r]
  else [triple r; terminal_a_b r; terminal_c r; numero r; signo r; cacho r].

(** The states [loadData] goes through: after its first three statements,
    after the statements that follow a successful parse, and after the
    [finally] block. *)
Definition loadStarted (st : State) : State :=
  on_els (set_refreshBtn_disabled true)
    (on_els (set_status (js "Cargando datos" ++ [8230])) (hideError st)).

Definition loadStored (records : list LotRecord) (now : jsstring) (st : State)
  : State :=
  on_els (set_status (js "Listo. Datos cargados desde Google Sheets."))
    (on_els (set_lastLoad now) (set_RAW records (loadStarted st))).

Definition loadFinished (st : State) : State :=
  on_els (set_refreshBtn_disabled false) st.

(** The markup [populateLotterySelect] last assigned to the select. *)
Definition lotSel_innerHTML (e : Els) : jsstring :=
  optionsHtml (lotSel_options e).

(** A string that does not start, or does not end, with white space. *)
Definition noLeadingWhiteSpace (s : jsstring) : Prop :=
  forall c rest, s = c :: rest -> isWhiteSpace c = false.

Definition noTrailingWhiteSpace (s : jsstring) : Prop :=
  forall init c, s = init ++ [c] -> isWhiteSpace c = false.

(** The counters and the two panels agree with the globals. *)
Definition viewConsistent (st : State) : Prop :=
  countPill_text (els st) = length (FILTERED st)
  /\ totalRows_text (els st) = length (RAW st)
  /\ grid_display (els st) = negb (empty_display (els st))
  /\ (grid_display (els st) = true <-> FILTERED st <> [])
  /\ (grid_display (els st) = true -> grid_cards (els st) = FILTERED st).

(** The default of a schema field. *)
Definition defaultOf (key : jsstring) : jsstring :=
  if bool_decide (key = js "categoria") then js "loteria" else [].

(* ================================================================= *)
(** ** Inputs the properties are run on *)

(** Two headers and one row whose first cell is quoted and holds a comma. *)
Definition quotedCommaText : jsstring :=
  js "h1,h2" ++ [LF; DQ] ++ js "a,b" ++ [DQ] ++ js ",c".

(** A line with a single quote after its comma. *)
Definition unbalancedLine : jsstring := js "a,b" ++ [DQ] ++ js "c".

(** A line whose only comma stands between two quoted cells. *)
Definition balancedLine : jsstring :=
  [DQ] ++ js "x" ++ [DQ] ++ js "," ++ [DQ] ++ js "y" ++ [DQ].

(** The feed of the specification's end-to-end scenario. *)
Definition scenarioText : jsstring :=
  js "categoria,loteria,numero,animal" ++ [LF]
  ++ js "animalitos,Triple,20,Cerdo" ++ [LF] ++ js "loteria,Triple,775,".

Definition cerdoRecord : LotRecord :=
  mkLotRecord (js "animalitos") [] (js "Triple") [] [] [] [] (js "20")
    [] [] (js "Cerdo").

Definition tripleRecord : LotRecord :=
  mkLotRecord (js "loteria") [] (js "Triple") [] [] [] [] (js "775")
    [] [] [].

(** A feed whose only row leaves the category cell blank. *)
Definition blankCategoryText : jsstring :=
  js "Categoria,Loteria" ++ [LF] ++ js ",Triple".

(** A clock text and a fetch that fails on the network. *)
Definition loadTime : jsstring := js "2/11/2026, 10:00:00".

Definition failedFetch : FetchResult := NetworkFault (js "Failed to fetch").

(** A record with nothing but its category. *)
Definition categoryOnlyRecord : LotRecord :=
  mkLotRecord (js "animalitos") [] [] [] [] [] [] [] [] [] [].

(** The record of a row that fills no schema field. *)
Definition blankRecord : LotRecord :=
  mkLotRecord (js "loteria") [] [] [] [] [] [] [] [] [] [].

(* ================================================================= *)
(** ** A host for concrete runs *)

Lemma codeUnitCompare_total a b :
  (0 < codeUnitCompare a b)%Z -> (codeUnitCompare b a <= 0)%Z.
Proof.
  revert b; induction a as [|x a IH]; intros [|y b]; simpl; try lia.
  destruct (N.ltb_spec x y), (N.ltb_spec y x); try lia.
  apply IH.
Qed.

Lemma codeUnitCompare_trans a b c :
  (codeUnitCompare a b <= 0)%Z -> (codeUnitCompare b c <= 0)%Z ->
  (codeUnitCompare a c <= 0)%Z.
Proof.
  revert b c; induction a as [|x a IH]; intros [|y b] [|z c]; simpl;
    try lia.
  destruct (N.ltb_spec x y), (N.ltb_spec y x), (N.ltb_spec y z),
    (N.ltb_spec z y), (N.ltb_spec x z), (N.ltb_spec z x); try lia.
  apply IH.
Qed.

#[export] Instance asciiHost : JsHost := {|
  toLowerCase := asciiLower;
  localeCompare := codeUnitCompare;
  localeCompare_total := codeUnitCompare_total;
  localeCompare_trans := codeUnitCompare_trans
|}.


(* ================================================================= *)
(** ** Splitting a line into cells *)

Lemma lookaheadFrom_parity inPair rest :
  lookaheadFrom inPair rest
  = if inPair then Nat.odd (countQuotes rest)
    else Nat.even (countQuotes rest).
Proof.
  revert inPair; induction rest as [|c rest IH]; intros inPair.
  - destruct inPair; reflexivity.
  - unfold countQuotes in *; cbn [lookaheadFrom List.filter].
    destruct (c =? DQ); rewrite IH.
    + cbn [length]. rewrite Nat.odd_succ, Nat.even_succ.
      destruct inPair; reflexivity.
    + reflexivity.
Qed.

Lemma lookahead_even rest :
  lookahead rest = Nat.even (countQuotes rest).
Proof. apply (lookaheadFrom_parity false). Qed.

Lemma countQuotes_app a b :
  countQuotes (a ++ b) = (countQuotes a + countQuotes b)%nat.
Proof.
  unfold countQuotes. rewrite List.filter_app, length_app. reflexivity.
Qed.

Lemma isDelimiter_app pre c rest :
  isDelimiter (pre ++ c :: rest) (length pre) = sepMatches c rest.
Proof. unfold isDelimiter. rewrite drop_app_length. reflexivity. Qed.

Lemma splitCells_cutFrom pre suf :
  splitCells suf = cutFrom (isDelimiter (pre ++ suf)) (length pre) suf.
Proof.
  revert pre; induction suf as [|c rest IH]; intros pre; [reflexivity|].
  cbn [splitCells cutFrom]. rewrite isDelimiter_app.
  specialize (IH (pre ++ [c])).
  rewrite <- app_assoc, length_app, Nat.add_1_r in IH. cbn [app] in IH.
  rewrite <- IH. reflexivity.
Qed.

Lemma isDelimiter_spec line i :
  isDelimiter line i = true
  <-> line !! i = Some COMMA
      /\ Nat.even (countQuotes (drop (S i) line)) = true.
Proof.
  unfold isDelimiter, sepMatches.
  destruct (drop i line) as [|c rest] eqn:E.
  - split; [discriminate|]. intros [Hc _].
    apply lookup_lt_Some in Hc.
    apply (f_equal length) in E. rewrite length_drop in E. simpl in E. lia.
  - assert (Hc : line !! i = Some c).
    { rewrite <- (Nat.add_0_r i), <- lookup_drop, E. reflexivity. }
    assert (Hr : drop (S i) line = rest).
    { change (S i) with (1 + i)%nat. rewrite Nat.add_comm, <- drop_drop, E.
      reflexivity. }
    rewrite Hc, Hr, lookahead_even, andb_true_iff, N.eqb_eq.
    split; intros [H1 H2]; split; congruence.
Qed.

Lemma isDelimiter_balanced line i :
  Nat.even (countQuotes line) = true ->
  isDelimiter line i = specDelimiter line i.
Proof.
  intros Heven. apply eq_true_iff_eq.
  rewrite isDelimiter_spec. unfold specDelimiter.
  rewrite andb_true_iff, bool_decide_eq_true.
  assert (Hsplit : line !! i = Some COMMA ->
            Nat.even (countQuotes (take i line))
            = Nat.even (countQuotes (drop (S i) line))).
  { intros Hc.
    rewrite <- (take_drop i line) in Heven at 1.
    rewrite (drop_S _ _ _ Hc) in Heven.
    rewrite countQuotes_app, Nat.even_add in Heven.
    change (countQuotes (COMMA :: drop (S i) line))
      with (countQuotes (drop (S i) line)) in Heven.
    destruct (Nat.even (countQuotes (take i line))),
      (Nat.even (countQuotes (drop (S i) line))); simpl in Heven;
      congruence. }
  split; intros [Hc Hq]; split; auto; rewrite Hsplit in *; auto.
Qed.

(** C1, as the code has it: the cells of a line are what lies between its
    delimiters, and a comma is a delimiter exactly when the number of double
    quotes after it on the line is even.  On a line with an even number of
    quotes this is the same as standing after an even number of quotes.
    For the text of two headers h1,h2 and the row whose first cell is the
    quoted a,b the row's cells are a,b and c, stored under h1 and h2; the
    returned record holds the schema fields only. *)
Theorem splitCells_delimiter_rule (line : jsstring) :
  splitCells line = cutFrom (isDelimiter line) 0 line
  /\ (forall i,
        isDelimiter line i = true
        <-> line !! i = Some COMMA
            /\ Nat.even (countQuotes (drop (S i) line)) = true)
  /\ (Nat.even (countQuotes line) = true ->
      forall i, isDelimiter line i = specDelimiter line i)
  /\ parseRows quotedCommaText = [[js "h1"; js "h2"]; [js "a,b"; js "c"]]
  /\ assignCells [js "h1"; js "h2"] [js "a,b"; js "c"]
     = <[js "h2" := js "c"]> (<[js "h1" := js "a,b"]> ∅)
  /\ parseCSV quotedCommaText = inr [blankRecord].
Proof.
  split; [exact (splitCells_cutFrom [] line)|].
  split; [intros i; apply isDelimiter_spec|].
  split; [intros Heven i; apply isDelimiter_balanced, Heven|].
  repeat split; vm_compute; reflexivity.
Qed.

Lemma splitCells_delimiter_rule_witness :
  Nat.even (countQuotes balancedLine) = true
  /\ isDelimiter balancedLine 3 = specDelimiter balancedLine 3
  /\ splitCells balancedLine = [[DQ] ++ js "x" ++ [DQ]; [DQ] ++ js "y" ++ [DQ]].
Proof.
  split; [reflexivity|]. split; [|reflexivity].
  apply (splitCells_delimiter_rule balancedLine). reflexivity.
Defined.

(** C1 as the specification words it fails on a line with an odd number of
    quotes: the comma of a,bQc (Q a double quote) has no quote before it,
    yet the line is one cell. *)
Lemma splitCells_unbalanced_counterexample :
  specDelimiter unbalancedLine 1 = true
  /\ isDelimiter unbalancedLine 1 = false
  /\ splitCells unbalancedLine = [unbalancedLine]
  /\ ~ (forall line i, isDelimiter line i = specDelimiter line i).
Proof.
  repeat split; try reflexivity.
  intros Hall. specialize (Hall unbalancedLine 1%nat). discriminate Hall.
Qed.

(* ================================================================= *)
(** ** Cleaning a cell *)

Lemma replaceQuotesFrom_false v :
  replaceQuotesFrom false v = stripTrailingQuote v.
Proof.
  induction v as [|c rest IH]; [reflexivity|].
  cbn [replaceQuotesFrom stripTrailingQuote]. rewrite IH.
  destruct rest as [|d rest]; simpl; destruct (c =? DQ); reflexivity.
Qed.

Lemma replaceQuotes_strips v : replaceQuotes v = stripOuterQuotes v.
Proof.
  destruct v as [|c rest]; [reflexivity|].
  unfold replaceQuotes, stripOuterQuotes.
  cbn [replaceQuotesFrom stripLeadingQuote orb andb].
  rewrite replaceQuotesFrom_false, andb_true_r.
  destruct (c =? DQ) eqn:E; [reflexivity|].
  destruct rest; cbn [stripTrailingQuote]; rewrite ?E; reflexivity.
Qed.

Lemma stripLeadingQuote_parts s :
  exists l, s = l ++ stripLeadingQuote s /\ (l = [] \/ l = [DQ]).
Proof.
  destruct s as [|c rest]; [exists []; auto|]. simpl.
  destruct (N.eqb_spec c DQ) as [->|_]; [exists [DQ]|exists []]; auto.
Qed.

Lemma stripTrailingQuote_parts s :
  exists t, s = stripTrailingQuote s ++ t /\ (t = [] \/ t = [DQ]).
Proof.
  induction s as [|c rest (t & IH & Ht)]; [exists []; auto|].
  destruct rest as [|d rest].
  - simpl. destruct (N.eqb_spec c DQ) as [->|_]; [exists [DQ]|exists []]; auto.
  - exists t. split; [|exact Ht].
    change (stripTrailingQuote (c :: d :: rest))
      with (c :: stripTrailingQuote (d :: rest)).
    rewrite <- app_comm_cons, <- IH. reflexivity.
Qed.

Lemma stripTrailingQuote_snoc s : stripTrailingQuote (s ++ [DQ]) = s.
Proof.
  induction s as [|c rest IH]; [reflexivity|].
  rewrite <- app_comm_cons. cbn [stripTrailingQuote]. rewrite IH.
  destruct rest; reflexivity.
Qed.

Lemma trimStart_parts s :
  exists w, s = w ++ trimStart s /\ forallb isWhiteSpace w = true.
Proof.
  induction s as [|c rest (w & IH & Hw)]; [exists []; auto|].
  cbn [trimStart]. destruct (isWhiteSpace c) eqn:E.
  - exists (c :: w). simpl. rewrite E, Hw, <- IH. auto.
  - exists []. auto.
Qed.

Lemma trimEnd_parts s :
  exists w, s = trimEnd s ++ w /\ forallb isWhiteSpace w = true.
Proof.
  unfold trimEnd. destruct (trimStart_parts (rev s)) as (w & Hs & Hw).
  exists (rev w). split.
  - rewrite <- rev_app_distr, <- Hs, rev_involutive. reflexivity.
  - rewrite forallb_forall in *. intros x Hx. apply Hw, in_rev, Hx.
Qed.

Lemma trimStart_before_mark a c x :
  isWhiteSpace c = false -> trimStart (a ++ c :: x) = trimStart a ++ c :: x.
Proof.
  intros Hc. induction a as [|d a IH]; simpl; [rewrite Hc; reflexivity|].
  destruct (isWhiteSpace d); [exact IH | reflexivity].
Qed.

Lemma trimEnd_after_mark x c b :
  isWhiteSpace c = false -> trimEnd (x ++ c :: b) = x ++ c :: trimEnd b.
Proof.
  intros Hc. unfold trimEnd.
  rewrite rev_app_distr. cbn [rev]. rewrite <- app_assoc. cbn [app].
  rewrite (trimStart_before_mark _ _ _ Hc), rev_app_distr. cbn [rev].
  rewrite rev_involutive, <- app_assoc. reflexivity.
Qed.

Lemma trimStart_head s c rest :
  trimStart s = c :: rest -> isWhiteSpace c = false.
Proof.
  induction s as [|d s IH]; simpl; [discriminate|].
  destruct (isWhiteSpace d) eqn:E; [exact IH|]. intros [= <- _]. exact E.
Qed.

Lemma trimStart_fixed c rest :
  isWhiteSpace c = false -> trimStart (c :: rest) = c :: rest.
Proof. intros E. simpl. rewrite E. reflexivity. Qed.

Lemma trimStart_idem s : trimStart (trimStart s) = trimStart s.
Proof.
  destruct (trimStart s) as [|c rest] eqn:E; [reflexivity|].
  apply trimStart_fixed, (trimStart_head _ _ _ E).
Qed.

Lemma trimStart_app a b :
  trimStart (a ++ b)
  = match trimStart a with [] => trimStart b | t => t ++ b end.
Proof.
  induction a as [|c a IH]; simpl; [destruct (trimStart b); reflexivity|].
  destruct (isWhiteSpace c); [exact IH | reflexivity].
Qed.

Lemma trimStart_blank w : forallb isWhiteSpace w = true -> trimStart w = [].
Proof.
  induction w as [|c w IH]; simpl; [reflexivity|].
  destruct (isWhiteSpace c); [exact IH | discriminate].
Qed.

Lemma trimStart_nil_blank s : trimStart s = [] -> forallb isWhiteSpace s = true.
Proof.
  induction s as [|c s IH]; simpl; [reflexivity|].
  destruct (isWhiteSpace c); [exact IH | discriminate].
Qed.

Lemma trimEnd_blank_suffix s w :
  forallb isWhiteSpace w = true -> trimEnd (s ++ w) = trimEnd s.
Proof.
  intros Hw. unfold trimEnd. rewrite rev_app_distr, trimStart_app.
  rewrite trimStart_blank; [reflexivity|].
  rewrite forallb_forall in *. intros x Hx. apply Hw, in_rev, Hx.
Qed.

Lemma trimEnd_last s init c :
  trimEnd s = init ++ [c] -> isWhiteSpace c = false.
Proof.
  unfold trimEnd. intros E. apply (f_equal (@rev N)) in E.
  rewrite rev_involutive, rev_app_distr in E. simpl in E.
  exact (trimStart_head _ _ _ E).
Qed.

Lemma trimEnd_idem s : trimEnd (trimEnd s) = trimEnd s.
Proof. unfold trimEnd. rewrite rev_involutive, trimStart_idem. reflexivity. Qed.

Lemma trimEnd_cons c rest :
  isWhiteSpace c = false -> trimEnd (c :: rest) = c :: trimEnd rest.
Proof. intros E. exact (trimEnd_after_mark [] c rest E). Qed.

Lemma trim_head s c rest : trim s = c :: rest -> isWhiteSpace c = false.
Proof.
  unfold trim. destruct (trimStart s) as [|d t] eqn:E; [discriminate|].
  pose proof (trimStart_head _ _ _ E) as Hd.
  rewrite (trimEnd_cons _ _ Hd). intros [= <- _]. exact Hd.
Qed.

Lemma trimStart_trim s : trimStart (trim s) = trim s.
Proof.
  destruct (trim s) as [|c rest] eqn:E; [reflexivity|].
  apply trimStart_fixed, (trim_head _ _ _ E).
Qed.

Lemma trim_blank_around pre s post :
  forallb isWhiteSpace pre = true -> forallb isWhiteSpace post = true ->
  trim (pre ++ s ++ post) = trim s.
Proof.
  intros Hpre Hpost. unfold trim.
  rewrite trimStart_app, (trimStart_blank _ Hpre), trimStart_app.
  destruct (trimStart s) as [|c t].
  - rewrite (trimStart_blank _ Hpost). reflexivity.
  - apply trimEnd_blank_suffix, Hpost.
Qed.

Lemma trimEnd_fixed b : noTrailingWhiteSpace b -> trimEnd b = b.
Proof.
  intros Hb. unfold trimEnd. destruct (rev b) as [|c l] eqn:E;
    apply (f_equal (@rev N)) in E; rewrite rev_involutive in E.
  - simpl in *. congruence.
  - simpl in E. rewrite (trimStart_fixed c l (Hb _ _ E)). simpl. congruence.
Qed.

Lemma trimStart_fixed' a : noLeadingWhiteSpace a -> trimStart a = a.
Proof.
  intros Ha. destruct a as [|c rest]; [reflexivity|].
  apply trimStart_fixed, (Ha c rest eq_refl).
Qed.

Lemma trim_around_doubled a b :
  trim (a ++ [DQ; DQ] ++ b) = trimStart a ++ [DQ; DQ] ++ trimEnd b.
Proof.
  unfold trim. cbn [app].
  rewrite trimStart_before_mark by reflexivity.
  replace (trimStart a ++ DQ :: DQ :: b)
    with ((trimStart a ++ [DQ]) ++ DQ :: b)
    by (rewrite <- app_assoc; reflexivity).
  rewrite trimEnd_after_mark by reflexivity.
  rewrite <- app_assoc. reflexivity.
Qed.

Lemma stripOuterQuotes_quoted m :
  stripOuterQuotes ([DQ] ++ m ++ [DQ]) = m.
Proof.
  unfold stripOuterQuotes. cbn [app stripLeadingQuote].
  rewrite N.eqb_refl. apply stripTrailingQuote_snoc.
Qed.

(** C5: a cell loses at most one leading and one trailing double quote, if
    present, and then the white space around what is left, all of it and
    nothing else: the cell value is a run of the cell as split, it neither
    starts nor ends with white space, and a doubled quote inside a quoted
    cell stays doubled. *)
Theorem cleanCell_strips_outer_quotes_only (v : jsstring) :
  cleanCell v = trim (stripOuterQuotes v)
  /\ (exists l wl wt t,
        v = l ++ wl ++ cleanCell v ++ wt ++ t
        /\ (l = [] \/ l = [DQ]) /\ (t = [] \/ t = [DQ])
        /\ forallb isWhiteSpace wl = true
        /\ forallb isWhiteSpace wt = true)
  /\ (forall a b,
        cleanCell ([DQ] ++ a ++ [DQ; DQ] ++ b ++ [DQ])
        = trimStart a ++ [DQ; DQ] ++ trimEnd b)
  /\ (exists wl wt,
        stripOuterQuotes v = wl ++ cleanCell v ++ wt
        /\ forallb isWhiteSpace wl = true
        /\ forallb isWhiteSpace wt = true)
  /\ noLeadingWhiteSpace (cleanCell v)
  /\ noTrailingWhiteSpace (cleanCell v)
  /\ (forall wl a b wr,
        forallb isWhiteSpace wl = true -> forallb isWhiteSpace wr = true ->
        noLeadingWhiteSpace a -> noTrailingWhiteSpace b ->
        cleanCell ([DQ] ++ wl ++ a ++ [DQ; DQ] ++ b ++ wr ++ [DQ])
        = a ++ [DQ; DQ] ++ b).
Proof.
  unfold cleanCell. rewrite !replaceQuotes_strips.
  split; [reflexivity|].
  split; [|split; [|split; [|split; [|split]]]].
  - unfold stripOuterQuotes, trim.
    destruct (stripLeadingQuote_parts v) as (l & Hl & Hl').
    destruct (stripTrailingQuote_parts (stripLeadingQuote v))
      as (t & Ht & Ht').
    destruct (trimStart_parts (stripTrailingQuote (stripLeadingQuote v)))
      as (wl & Hwl & Hwl').
    destruct (trimEnd_parts
                (trimStart (stripTrailingQuote (stripLeadingQuote v))))
      as (wt & Hwt & Hwt').
    exists l, wl, wt, t. repeat split; try assumption.
    rewrite Hl at 1. f_equal. rewrite Ht at 1.
    rewrite Hwl at 1. rewrite Hwt at 1.
    rewrite <- !app_assoc. reflexivity.
  - intros a b. rewrite replaceQuotes_strips.
    replace (a ++ [DQ; DQ] ++ b ++ [DQ]) with ((a ++ [DQ; DQ] ++ b) ++ [DQ])
      by (rewrite <- !app_assoc; reflexivity).
    rewrite stripOuterQuotes_quoted. apply trim_around_doubled.
  - unfold trim.
    destruct (trimStart_parts (stripOuterQuotes v)) as (wl & Hwl & Hwl').
    destruct (trimEnd_parts (trimStart (stripOuterQuotes v)))
      as (wt & Hwt & Hwt').
    exists wl, wt. repeat split; try assumption.
    rewrite Hwl at 1. rewrite Hwt at 1. reflexivity.
  - intros c rest. apply trim_head.
  - intros init c. apply trimEnd_last.
  - intros wl a b wr Hwl Hwr Ha Hb. rewrite replaceQuotes_strips.
    replace (wl ++ a ++ [DQ; DQ] ++ b ++ wr ++ [DQ])
      with ((wl ++ (a ++ [DQ; DQ] ++ b) ++ wr) ++ [DQ])
      by (rewrite <- !app_assoc; reflexivity).
    rewrite stripOuterQuotes_quoted.
    rewrite (trim_blank_around _ _ _ Hwl Hwr), trim_around_doubled.
    rewrite (trimStart_fixed' _ Ha), (trimEnd_fixed _ Hb). reflexivity.
Qed.

Lemma cleanCell_strips_outer_quotes_only_witness :
  forallb isWhiteSpace [SP; 9] = true
  /\ noLeadingWhiteSpace (js "a b")
  /\ noTrailingWhiteSpace (js "c")
  /\ cleanCell ([DQ] ++ [SP; 9] ++ js "a b" ++ [DQ; DQ] ++ js "c" ++ [SP; 9]
                ++ [DQ])
     = js "a b" ++ [DQ; DQ] ++ js "c".
Proof.
  assert (Ha : noLeadingWhiteSpace (js "a b"))
    by (intros c rest [= <- _]; reflexivity).
  assert (Hb : noTrailingWhiteSpace (js "c")).
  { intros [|d init] c E; [injection E as <-; reflexivity|].
    destruct init; discriminate E. }
  split; [reflexivity|]. split; [exact Ha|]. split; [exact Hb|].
  exact (proj2 (proj2 (proj2 (proj2 (proj2 (proj2
           (cleanCell_strips_outer_quotes_only []))))))
           [SP; 9] (js "a b") (js "c") [SP; 9] eq_refl eq_refl Ha Hb).
Defined.

(* ================================================================= *)
(** ** Rows to records *)

Lemma splitOn_cons sep s : exists first rest, splitOn sep s = first :: rest.
Proof.
  induction s as [|c s (first & rest & IH)]; simpl; [eauto|].
  destruct (c =? sep); [eauto|]. rewrite IH. simpl. eauto.
Qed.

Lemma map_lookup_Some {A B} (f : A -> B) (l : list A) k x :
  l !! k = Some x -> List.map f l !! k = Some (f x).
Proof.
  revert k; induction l as [|y l IH]; intros [|k]; simpl; try discriminate.
  - intros [= ->]. reflexivity.
  - apply IH.
Qed.

Lemma assignFrom_lookup i headers r o key :
  assignFrom i headers r o !! key
  = match lastIndexFrom i key headers with
    | Some j => Some (orElse (r !! j) [])
    | None => o !! key
    end.
Proof.
  revert i o; induction headers as [|h rest IH]; intros i o; [reflexivity|].
  cbn [assignFrom lastIndexFrom]. rewrite IH.
  destruct (lastIndexFrom (S i) key rest); [reflexivity|].
  rewrite lookup_insert.
  case_bool_decide; case_decide; congruence.
Qed.

Lemma orElse_assignCells headers r key d :
  orElse (assignCells headers r !! key) d
  = orElse (cellUnder headers r key) d.
Proof.
  unfold assignCells, cellUnder. rewrite assignFrom_lookup.
  destruct (lastIndexFrom 0 key headers) as [j|]; [|reflexivity].
  destruct (r !! j) as [[|c cell]|]; reflexivity.
Qed.

Lemma rowToRecord_values headers r :
  Object_values (rowToRecord headers r)
  = List.map (fun key => orElse (cellUnder headers r key) (defaultOf key))
      Object_keys.
Proof.
  unfold Object_values, rowToRecord.
  cbn [categoria fecha loteria horario triple terminal_a_b terminal_c
       numero signo cacho animal].
  rewrite !orElse_assignCells. reflexivity.
Qed.

Lemma rowToRecord_categoria headers r :
  categoria (rowToRecord headers r)
  = orElse (cellUnder headers r (js "categoria")) (js "loteria").
Proof. apply orElse_assignCells. Qed.

Lemma parseCSV_unfold `{JsHost} text :
  parseCSV text
  = inr (List.map
           (fun line =>
              rowToRecord
                (List.map toLowerCase
                   (splitRow (hd [] (splitOn LF (trim text)))))
                (splitRow line))
           (tl (splitOn LF (trim text)))).
Proof.
  unfold parseCSV, parseRows.
  destruct (splitOn_cons LF (trim text)) as (first & rest & ->).
  cbn [List.map shift hd tl]. rewrite List.map_map. reflexivity.
Qed.

(** C4: the records are as many as the lines after the header line; each
    holds the eleven schema fields, a field being the non-empty cell under
    its header and otherwise its default, the empty string, or loteria for
    the category. *)
Theorem parseCSV_one_record_per_row `{JsHost} (text : jsstring) :
  let lines := splitOn LF (trim text) in
  let headers := List.map toLowerCase (splitRow (hd [] lines)) in
  exists records,
    parseCSV text = inr records
    /\ length records = length (tl lines)
    /\ forall k line, tl lines !! k = Some line ->
       exists r,
         records !! k = Some r
         /\ Object_values r
            = List.map
                (fun key =>
                   orElse (cellUnder headers (splitRow line) key)
                     (defaultOf key))
                Object_keys
         /\ (cellUnder headers (splitRow line) (js "categoria") = None
             \/ cellUnder headers (splitRow line) (js "categoria") = Some []
             -> categoria r = js "loteria").
Proof.
  intros lines headers. eexists. split; [apply parseCSV_unfold|].
  split; [apply length_map|].
  intros k line Hline. eexists. split.
  - apply (map_lookup_Some _ _ _ _ Hline).
  - split; [apply rowToRecord_values|].
    rewrite rowToRecord_categoria. fold lines. fold headers.
    intros [-> | ->]; reflexivity.
Qed.

Lemma parseCSV_one_record_per_row_witness :
  exists records r,
    parseCSV blankCategoryText = inr records
    /\ length records = 1%nat
    /\ records !! 0%nat = Some r
    /\ categoria r = js "loteria".
Proof.
  destruct (parseCSV_one_record_per_row blankCategoryText)
    as (records & Hparse & Hlen & Hrows).
  destruct (Hrows 0%nat (js ",Triple") eq_refl) as (r & Hr & _ & Hcat).
  exists records, r. repeat split; try assumption.
  apply Hcat. right. reflexivity.
Defined.

(** C9: [parseCSV] returns a sequence of records on every string, and the
    empty sequence when the string is empty once trimmed. *)
Theorem parseCSV_total `{JsHost} (text : jsstring) :
  (exists records, parseCSV text = inr records)
  /\ (trim text = [] -> parseCSV text = inr []).
Proof.
  split; [eexists; apply parseCSV_unfold|].
  intros Hempty. rewrite parseCSV_unfold, Hempty. reflexivity.
Qed.

Lemma parseCSV_total_witness :
  trim (js "  " ++ [LF; 9; 13]) = []
  /\ parseCSV (js "  " ++ [LF; 9; 13]) = inr [].
Proof.
  split; [reflexivity|].
  apply (parseCSV_total (js "  " ++ [LF; 9; 13])). reflexivity.
Defined.

(* ================================================================= *)
(** ** The filter *)

Lemma startsWith_prefix s q :
  startsWith s q = true <-> exists suf, s = q ++ suf.
Proof.
  revert s; induction q as [|b q IH]; intros s.
  - destruct s; simpl; split; eauto.
  - destruct s as [|a s]; simpl.
    + split; [discriminate | intros (suf & [=])].
    + rewrite andb_true_iff, N.eqb_eq, IH. split.
      * intros (-> & suf & ->). eauto.
      * intros (suf & [= -> ->]). eauto.
Qed.

Lemma includes_substring s q :
  includes s q = true <-> exists pre suf, s = pre ++ q ++ suf.
Proof.
  induction s as [|a s IH].
  - cbn [includes]. rewrite orb_false_r, startsWith_prefix. split.
    + intros (suf & ->). exists [], suf. reflexivity.
    + intros (pre & suf & E). destruct pre; [eauto|discriminate].
  - cbn [includes]. rewrite orb_true_iff, startsWith_prefix, IH. split.
    + intros [(suf & ->) | (pre & suf & ->)].
      * exists [], suf. reflexivity.
      * exists (a :: pre), suf. reflexivity.
    + intros ([|b pre] & suf & E).
      * left. eauto.
      * right. injection E as -> ->. eauto.
Qed.

Lemma filter_twice {A} (f g : A -> bool) l :
  List.filter f (List.filter g l) = List.filter (fun x => g x && f x) l.
Proof.
  induction l as [|x l IH]; [reflexivity|]. simpl.
  destruct (g x); simpl; [destruct (f x)|]; rewrite IH; reflexivity.
Qed.

Section Filter.
Context `{JsHost}.

Lemma filterCallback_text_only q r :
  q <> [] ->
  filterCallback [] q r
  = includes (toLowerCase (join [SP] (Object_values r))) q.
Proof. intros Hq. destruct q; [congruence | reflexivity]. Qed.

Lemma filterCallback_stages lot q r :
  filterCallback lot q r = filterCallback lot [] r && filterCallback [] q r.
Proof.
  unfold filterCallback. cbn [truthy negb andb].
  destruct (truthy lot && negb (bool_decide (loteria r = lot)));
    reflexivity.
Qed.

Lemma render_globals st :
  RAW (render st) = RAW st /\ FILTERED (render st) = FILTERED st
  /\ CURRENT_CAT (render st) = CURRENT_CAT st.
Proof. unfold render. case_match; auto. Qed.

Lemma render_controls st :
  lotSel_value (els (render st)) = lotSel_value (els st)
  /\ lotSel_options (els (render st)) = lotSel_options (els st)
  /\ q_value (els (render st)) = q_value (els st).
Proof. unfold render. case_match; auto. Qed.

Lemma applyFilters_FILTERED st :
  FILTERED (applyFilters st)
  = queryFilter (lotSel_value (els st)) (toLowerCase (q_value (els st)))
      (rowsForCurrentCategory st).
Proof. unfold applyFilters. rewrite (proj1 (proj2 (render_globals _))). reflexivity. Qed.

End Filter.

(** C2, as the code has it: with no lottery selected and a non-empty
    lower-cased text q, the records that pass are those whose eleven field
    values, the category first and then the date to the animal, joined by
    single spaces and lower-cased, contain q as a substring; cerdo finds
    the record whose animal is Cerdo. *)
Theorem queryFilter_free_text `{JsHost} (base : list LotRecord)
  (q : jsstring) :
  q <> [] ->
  queryFilter [] q base
  = List.filter
      (fun r => includes (toLowerCase (join [SP] (Object_values r))) q) base
  /\ (forall r,
        In r (queryFilter [] q base)
        <-> In r base
            /\ exists pre suf,
                toLowerCase
                  (join [SP]
                     [categoria r; fecha r; loteria r; horario r; triple r;
                      terminal_a_b r; terminal_c r; numero r; signo r;
                      cacho r; animal r])
                = pre ++ q ++ suf)
  /\ queryFilter (H := asciiHost) [] (js "cerdo") [cerdoRecord; tripleRecord]
     = [cerdoRecord].
Proof.
  intros Hq. split; [|split; [|reflexivity]].
  - unfold queryFilter. apply List.filter_ext. intros r.
    apply filterCallback_text_only, Hq.
  - intros r. unfold queryFilter. rewrite filter_In.
    rewrite (filterCallback_text_only _ _ Hq), includes_substring.
    reflexivity.
Qed.

Lemma queryFilter_free_text_witness :
  js "gato" <> []
  /\ queryFilter (H := asciiHost) [] (js "gato") [cerdoRecord]
     = List.filter
         (fun r => includes (toLowerCase (join [SP] (Object_values r)))
                     (js "gato"))
         [cerdoRecord].
Proof.
  assert (Hq : js "gato" <> []) by discriminate.
  split; [exact Hq|].
  exact (proj1 (queryFilter_free_text (H := asciiHost) [cerdoRecord]
                  (js "gato") Hq)).
Defined.

(** C2 as the specification words it leaves the category out of the text
    searched; the code searches it too, so a record with only a category
    passes when q is that category. *)
Lemma queryFilter_category_counterexample :
  js "animalitos" <> []
  /\ queryFilter (H := asciiHost) [] (js "animalitos") [categoryOnlyRecord]
     = [categoryOnlyRecord]
  /\ includes (specSearchText (H := asciiHost) categoryOnlyRecord)
       (js "animalitos") = false.
Proof. split; [discriminate|]. split; reflexivity. Qed.

(** C10: filtering by lottery and text at once is filtering by lottery and
    then by text, and also by text and then by lottery. *)
Theorem queryFilter_stages_commute `{JsHost} (s : list LotRecord)
  (lot q : jsstring) :
  queryFilter lot q s = queryFilter [] q (queryFilter lot [] s)
  /\ queryFilter lot q s = queryFilter lot [] (queryFilter [] q s).
Proof.
  unfold queryFilter. rewrite !filter_twice. split; apply List.filter_ext.
  - intros r. apply filterCallback_stages.
  - intros r. rewrite andb_comm. apply filterCallback_stages.
Qed.

(* ================================================================= *)
(** ** The lottery options *)

Lemma spreadSetFrom_In seen arr x :
  In x (spreadSetFrom seen arr) <-> In x arr /\ ~ In x seen.
Proof.
  revert seen; induction arr as [|y arr IH]; intros seen; simpl.
  - tauto.
  - case_bool_decide as Hy; rewrite list_elem_of_In in Hy.
    + rewrite IH. split; [tauto|]. intros [[-> | Hx] Hn]; tauto.
    + simpl. rewrite IH. simpl. split.
      * intros [-> | [Hx Hn]]; tauto.
      * intros [[-> | Hx] Hn]; [tauto|].
        destruct (decide (y = x)); [tauto|]. right. tauto.
Qed.

Lemma spreadSetFrom_NoDup seen arr : List.NoDup (spreadSetFrom seen arr).
Proof.
  revert seen; induction arr as [|y arr IH]; intros seen; simpl.
  - constructor.
  - case_bool_decide; [apply IH|]. apply List.NoDup_cons; [|apply IH].
    rewrite spreadSetFrom_In. simpl. tauto.
Qed.

Lemma uniq_In arr x : In x (uniq arr) <-> x <> [] /\ In x arr.
Proof.
  unfold uniq, spreadSet. rewrite filter_In, spreadSetFrom_In. simpl.
  destruct x; simpl; split; intros; try tauto; try (intuition congruence).
Qed.

Lemma uniq_NoDup arr : List.NoDup (uniq arr).
Proof. apply List.NoDup_filter, spreadSetFrom_NoDup. Qed.

Section Sorting.
Variable cmp : jsstring -> jsstring -> Z.
Hypothesis cmp_total : forall a b, (0 < cmp a b)%Z -> (cmp b a <= 0)%Z.
Hypothesis cmp_trans :
  forall a b c, (cmp a b <= 0)%Z -> (cmp b c <= 0)%Z -> (cmp a c <= 0)%Z.

Let le (a b : jsstring) : Prop := (cmp a b <= 0)%Z.

Lemma insertBy_Permutation x l : Permutation (x :: l) (insertBy cmp x l).
Proof.
  induction l as [|y l IH]; simpl; [reflexivity|].
  destruct (cmp x y <=? 0)%Z; [reflexivity|].
  rewrite perm_swap. apply perm_skip, IH.
Qed.

Lemma sortBy_Permutation l : Permutation l (sortBy cmp l).
Proof.
  induction l as [|x l IH]; simpl; [reflexivity|].
  rewrite <- insertBy_Permutation. apply perm_skip, IH.
Qed.

Lemma insertBy_sorted x l :
  StronglySorted le l -> StronglySorted le (insertBy cmp x l).
Proof.
  induction 1 as [|y l Hs IH Hy]; simpl.
  - repeat constructor.
  - destruct (Z.leb_spec (cmp x y) 0) as [Hxy | Hxy].
    + constructor; [constructor; assumption|].
      constructor; [exact Hxy|].
      rewrite List.Forall_forall in *. intros z Hz.
      apply (cmp_trans _ y); [exact Hxy | apply Hy, Hz].
    + constructor; [exact IH|].
      rewrite List.Forall_forall in *. intros z Hz.
      apply (Permutation_in _ (Permutation_sym (insertBy_Permutation x l)))
        in Hz.
      destruct Hz as [<- | Hz]; [apply cmp_total, Hxy | apply Hy, Hz].
Qed.

Lemma sortBy_sorted l : StronglySorted le (sortBy cmp l).
Proof.
  induction l as [|x l IH]; simpl; [constructor | apply insertBy_sorted, IH].
Qed.

End Sorting.

(** C7: the options are the non-empty lottery names of the records, each
    once, in ascending order of [localeCompare]; no records give no
    options.  [populateLotterySelect] puts them into the select. *)
Theorem lotteryOptions_distinct_sorted `{JsHost} (rows : list LotRecord) :
  let lots := lotteryOptions rows in
  (forall s, In s lots <-> s <> [] /\ exists r, In r rows /\ loteria r = s)
  /\ List.NoDup lots
  /\ StronglySorted (fun a b => (localeCompare a b <= 0)%Z) lots
  /\ lotteryOptions [] = []
  /\ forall st, lotSel_options (els (populateLotterySelect rows st)) = lots.
Proof.
  intros lots. unfold lots, lotteryOptions.
  pose proof (sortBy_Permutation localeCompare
                (uniq (List.map loteria rows))) as Hperm.
  split; [|split; [|split; [|split]]].
  - intros s. split.
    + intros Hs. apply (Permutation_in _ (Permutation_sym Hperm)) in Hs.
      apply uniq_In in Hs as [Hne Hs]. split; [exact Hne|].
      apply in_map_iff in Hs as (r & Hr & Hin). eauto.
    + intros (Hne & r & Hin & Hr). apply (Permutation_in _ Hperm).
      apply uniq_In. split; [exact Hne|]. apply in_map_iff. eauto.
  - apply (Permutation_NoDup Hperm), uniq_NoDup.
  - apply sortBy_sorted; [apply localeCompare_total|apply localeCompare_trans].
  - reflexivity.
  - reflexivity.
Qed.

Lemma lotteryOptions_distinct_sorted_witness :
  List.NoDup (lotteryOptions (H := asciiHost)
           [tripleRecord; blankRecord; cerdoRecord])
  /\ lotteryOptions (H := asciiHost) [tripleRecord; blankRecord; cerdoRecord]
     = [js "Triple"].
Proof.
  split; [|reflexivity].
  apply (lotteryOptions_distinct_sorted (H := asciiHost)
           [tripleRecord; blankRecord; cerdoRecord]).
Defined.

(* ================================================================= *)
(** ** The page *)

Lemma orElse_nonempty v d : d <> [] -> orElse v d <> [].
Proof.
  intros Hd. destruct v as [[|c s]|]; simpl; [exact Hd | discriminate | exact Hd].
Qed.

Lemma forCategory_In cat raw r :
  In r (forCategory cat raw)
  <-> In r raw /\ orElse (Some (categoria r)) (js "loteria") = cat.
Proof.
  unfold forCategory. rewrite filter_In, bool_decide_eq_true. reflexivity.
Qed.

Lemma orElse_categoria r :
  categoria r <> [] -> orElse (Some (categoria r)) (js "loteria") = categoria r.
Proof. destruct (categoria r); [congruence | reflexivity]. Qed.

Section Page.
Context `{JsHost}.

Lemma applyFilters_globals st :
  RAW (applyFilters st) = RAW st
  /\ CURRENT_CAT (applyFilters st) = CURRENT_CAT st.
Proof.
  unfold applyFilters. cbv zeta.
  match goal with
  | |- context [render ?x] => destruct (render_globals x) as (-> & _ & ->)
  end.
  auto.
Qed.

Lemma applyFilters_controls st :
  lotSel_value (els (applyFilters st)) = lotSel_value (els st)
  /\ lotSel_options (els (applyFilters st)) = lotSel_options (els st)
  /\ q_value (els (applyFilters st)) = q_value (els st).
Proof.
  unfold applyFilters. cbv zeta.
  match goal with
  | |- context [render ?x] => destruct (render_controls x) as (-> & -> & ->)
  end.
  auto.
Qed.

Lemma setCategory_globals cat st :
  RAW (setCategory cat st) = RAW st /\ CURRENT_CAT (setCategory cat st) = cat.
Proof.
  unfold setCategory. cbv zeta.
  match goal with
  | |- context [applyFilters ?x] =>
      destruct (applyFilters_globals x) as (-> & ->)
  end.
  auto.
Qed.

Lemma setCategory_controls cat st :
  lotSel_value (els (setCategory cat st)) = []
  /\ q_value (els (setCategory cat st)) = []
  /\ lotSel_options (els (setCategory cat st))
     = lotteryOptions (forCategory cat (RAW st)).
Proof.
  unfold setCategory. cbv zeta.
  match goal with
  | |- context [applyFilters ?x] =>
      destruct (applyFilters_controls x) as (-> & -> & ->)
  end.
  auto.
Qed.

Lemma loadFailed_outcome message st :
  RAW (loadFailed message st) = []
  /\ FILTERED (loadFailed message st) = []
  /\ lotSel_options (els (loadFailed message st)) = lotSel_options (els st).
Proof.
  unfold loadFailed. cbv zeta.
  match goal with
  | |- context [render ?x] =>
      destruct (render_globals x) as (-> & -> & _);
      destruct (render_controls x) as (_ & -> & _)
  end.
  auto.
Qed.

Lemma parseCSV_categoriesSet text records :
  parseCSV text = inr records -> categoriesSet records.
Proof.
  rewrite parseCSV_unfold. intros [= <-].
  apply List.Forall_forall. intros r Hr.
  apply in_map_iff in Hr as (line & <- & _).
  rewrite rowToRecord_categoria. apply orElse_nonempty. discriminate.
Qed.

Lemma loadData_RAW res now st :
  categoriesSet (RAW (loadData res now st)).
Proof.
  unfold loadData. cbn [RAW on_els].
  destruct res as [message | [|] body];
    try (rewrite (proj1 (loadFailed_outcome _ _)); constructor).
  destruct (parseCSV body) as [[]|records] eqn:E.
  - rewrite (proj1 (loadFailed_outcome _ _)). constructor.
  - rewrite (proj1 (setCategory_globals _ _)). cbn [RAW set_RAW on_els].
    apply (parseCSV_categoriesSet _ _ E).
Qed.

Lemma reachable_categoriesSet st : reachable st -> categoriesSet (RAW st).
Proof.
  induction 1 as [|res now st _ _|v st _ IH|v st _ IH|cat st _ IH].
  - constructor.
  - apply loadData_RAW.
  - unfold onLotSelChange. rewrite (proj1 (applyFilters_globals _)). exact IH.
  - unfold onQueryInput. rewrite (proj1 (applyFilters_globals _)). exact IH.
  - unfold onTabClick. case_match; [exact IH|].
    rewrite (proj1 (setCategory_globals _ _)). exact IH.
Qed.

End Page.

(** C6: on every dataset the page reaches, the records of the loteria tab
    and those of the animalitos tab have no record in common, and together
    they are the records of the dataset whose category is one of the two. *)
Theorem forCategory_partition `{JsHost} (st : State) :
  reachable st ->
  let lot := forCategory (js "loteria") (RAW st) in
  let ani := forCategory (js "animalitos") (RAW st) in
  (forall r, ~ (In r lot /\ In r ani))
  /\ (forall r,
        In r lot \/ In r ani
        <-> In r (RAW st)
            /\ (categoria r = js "loteria" \/ categoria r = js "animalitos"))
  /\ rowsForCurrentCategory st = forCategory (CURRENT_CAT st) (RAW st).
Proof.
  intros Hreach lot ani. subst lot ani.
  pose proof (reachable_categoriesSet st Hreach) as Hset.
  unfold categoriesSet in Hset. rewrite List.Forall_forall in Hset.
  split; [|split; [|reflexivity]].
  - intros r [Hl Ha]. apply forCategory_In in Hl as [_ Hl].
    apply forCategory_In in Ha as [_ Ha]. rewrite Hl in Ha. discriminate Ha.
  - intros r. rewrite !forCategory_In. split.
    + intros [[Hin Hc] | [Hin Hc]]; rewrite orElse_categoria in Hc
        by (apply Hset, Hin); auto.
    + intros [Hin Hc]. rewrite orElse_categoria by (apply Hset, Hin). tauto.
Qed.

Lemma forCategory_partition_witness :
  reachable (loadData (H := asciiHost) (Response true scenarioText) loadTime
               initialState)
  /\ ~ (In cerdoRecord
          (forCategory (js "loteria")
             (RAW (loadData (H := asciiHost) (Response true scenarioText)
                     loadTime initialState)))
        /\ In cerdoRecord
             (forCategory (js "animalitos")
                (RAW (loadData (H := asciiHost) (Response true scenarioText)
                        loadTime initialState)))).
Proof.
  split; [exact (reach_load _ _ _ reach_init)|].
  exact (proj1 (forCategory_partition (H := asciiHost) _
                  (reach_load (Response true scenarioText) loadTime _
                     reach_init))
           cerdoRecord).
Defined.

(** C8: whatever the category, the active one included, [setCategory]
    leaves the selected lottery and the search text empty, and does so
    again when called a second time with the same category. *)
Theorem setCategory_resets_filters `{JsHost} (cat : jsstring) (st : State) :
  let st1 := setCategory cat st in
  let st2 := setCategory cat st1 in
  let same := setCategory (CURRENT_CAT st) st in
  (lotSel_value (els st1) = [] /\ q_value (els st1) = []
   /\ CURRENT_CAT st1 = cat)
  /\ (lotSel_value (els st2) = [] /\ q_value (els st2) = []
      /\ CURRENT_CAT st2 = cat)
  /\ (lotSel_value (els same) = [] /\ q_value (els same) = []
      /\ CURRENT_CAT same = CURRENT_CAT st).
Proof.
  intros st1 st2 same. subst st1 st2 same.
  repeat split;
    first [ apply setCategory_controls
          | apply (proj1 (proj2 (setCategory_controls _ _)))
          | apply (proj2 (setCategory_globals _ _)) ].
Qed.

Lemma loadData_failed `{JsHost} res now st :
  (forall body, res <> Response true body) ->
  exists message st',
    loadData res now st
    = on_els (set_refreshBtn_disabled false) (loadFailed message st')
    /\ lotSel_options (els st') = lotSel_options (els st).
Proof.
  intros Hres. destruct res as [message | [|] body].
  - eexists _, _. split; reflexivity.
  - destruct (Hres body). reflexivity.
  - eexists _, _. split; reflexivity.
Qed.

Lemma scenario_reload_failure :
  let loaded :=
    loadData (H := asciiHost) (Response true scenarioText) loadTime
      initialState in
  let failed := loadData (H := asciiHost) failedFetch loadTime loaded in
  RAW failed = [] /\ FILTERED failed = []
  /\ lotSel_options (els failed) = [js "Triple"]
  /\ lotteryOptions (H := asciiHost) (rowsForCurrentCategory failed) = [].
Proof. vm_compute. repeat split. Qed.

(** C3, what the code does: after a failed load the dataset and the result
    set are empty, but the options of the lottery select are the ones it
    had before, so after a load of the scenario's feed and a failed reload
    the select still offers Triple while no record is left. *)
Theorem loadData_failure_keeps_options `{JsHost} (res : FetchResult)
  (now : jsstring) (st : State) :
  ((forall body, res <> Response true body) ->
   RAW (loadData res now st) = []
   /\ FILTERED (loadData res now st) = []
   /\ lotSel_options (els (loadData res now st)) = lotSel_options (els st))
  /\ (let loaded :=
        loadData (H := asciiHost) (Response true scenarioText) loadTime
          initialState in
      let failed := loadData (H := asciiHost) failedFetch loadTime loaded in
      RAW failed = [] /\ FILTERED failed = []
      /\ lotSel_options (els failed) = [js "Triple"]
      /\ lotteryOptions (H := asciiHost) (rowsForCurrentCategory failed)
         = []).
Proof.
  split; [|exact scenario_reload_failure].
  intros Hres.
  destruct (loadData_failed res now st Hres) as (message & st' & -> & <-).
  destruct (loadFailed_outcome message st') as (HR & HF & HO).
  repeat split; assumption.
Qed.

Lemma loadData_failure_keeps_options_witness :
  (forall body, failedFetch <> Response true body)
  /\ RAW (loadData (H := asciiHost) failedFetch loadTime initialState) = []
  /\ FILTERED (loadData (H := asciiHost) failedFetch loadTime initialState)
     = [].
Proof.
  assert (Hres : forall body, failedFetch <> Response true body)
    by (intros body; discriminate).
  split; [exact Hres|].
  destruct (proj1 (loadData_failure_keeps_options (H := asciiHost)
                     failedFetch loadTime initialState) Hres)
    as (H1 & H2 & _).
  split; assumption.
Defined.

(* ================================================================= *)
(** ** Lines and cells: what splitting keeps *)

Lemma join_cons_cons sep p q more :
  join sep (p :: q :: more) = p ++ sep ++ join sep (q :: more).
Proof. reflexivity. Qed.

Lemma join_consHead sep c pieces :
  pieces <> [] -> join sep (consHead c pieces) = c :: join sep pieces.
Proof.
  destruct pieces as [|p [|q more]]; [congruence | reflexivity | reflexivity].
Qed.

Lemma consHead_length c pieces :
  pieces <> [] -> length (consHead c pieces) = length pieces.
Proof. destruct pieces; [congruence | reflexivity]. Qed.

Lemma splitOn_nonempty sep s : splitOn sep s <> [].
Proof. destruct (splitOn_cons sep s) as (f & r & ->). discriminate. Qed.

Lemma splitCells_nonempty line : splitCells line <> [].
Proof.
  destruct line as [|c rest]; simpl; [discriminate|].
  destruct (sepMatches c rest); [discriminate|].
  destruct (splitCells rest); discriminate.
Qed.

Lemma splitOn_join_roundtrip_length sep s :
  length (splitOn sep s) = S (countUnits (fun c => c =? sep) s).
Proof.
  unfold countUnits. induction s as [|c s IH]; [reflexivity|].
  cbn [splitOn List.filter]. destruct (c =? sep); cbn [length].
  - rewrite IH. reflexivity.
  - rewrite consHead_length by apply splitOn_nonempty. exact IH.
Qed.

(** X1: joining the lines [split] gives with the separator restores the
    text; no line holds a separator, and there is one line more than there
    are separators. *)
Theorem splitOn_join_roundtrip (sep : N) (s : jsstring) :
  join [sep] (splitOn sep s) = s
  /\ Forall (fun p => ~ In sep p) (splitOn sep s)
  /\ length (splitOn sep s) = S (countUnits (fun c => c =? sep) s).
Proof.
  unfold countUnits. induction s as [|c s (IHj & IHf & IHl)].
  - simpl. split; [reflexivity|]. split; [|reflexivity].
    constructor; [intros []|constructor].
  - cbn [splitOn List.filter]. destruct (N.eqb_spec c sep) as [->|Hc].
    + destruct (splitOn_cons sep s) as (f & r & E). rewrite E in *.
      rewrite join_cons_cons, IHj. cbn [length]. rewrite <- IHl.
      split; [reflexivity|]. split; [|reflexivity].
      constructor; [intros []|exact IHf].
    + rewrite join_consHead, consHead_length, IHj, IHl
        by apply splitOn_nonempty.
      split; [reflexivity|]. split; [|reflexivity].
      destruct (splitOn_cons sep s) as (f & r & E). rewrite E in *. simpl.
      inversion IHf as [|? ? Hf Hr]; subst. constructor; [|exact Hr].
      intros [Heq | Hin]; [congruence | exact (Hf Hin)].
Qed.

(** X2: joining the cells of a line with commas restores the line, so the
    split loses nothing but the delimiters; the cells are at most one more
    than the commas. *)
Theorem splitCells_join_roundtrip (line : jsstring) :
  join [COMMA] (splitCells line) = line
  /\ (length (splitCells line)
      <= S (countUnits (fun c => (c =? COMMA)%N) line))%nat.
Proof.
  unfold countUnits. induction line as [|c rest (IHj & IHl)].
  - simpl. split; [reflexivity | lia].
  - cbn [splitCells List.filter]. unfold sepMatches.
    destruct (N.eqb_spec c COMMA) as [->|Hc]; cbn [andb].
    + destruct (lookahead rest).
      * pose proof (splitCells_nonempty rest) as Hne.
        destruct (splitCells rest) as [|f r]; [congruence|].
        rewrite join_cons_cons, IHj. cbn [length] in *. split; [reflexivity|lia].
      * rewrite join_consHead, consHead_length, IHj
          by apply splitCells_nonempty.
        cbn [length]. split; [reflexivity | lia].
    + rewrite join_consHead, consHead_length, IHj
        by apply splitCells_nonempty.
      split; [reflexivity | lia].
Qed.

(** X3: a line without any double quote is split at every comma. *)
Theorem splitCells_without_quotes (line : jsstring) :
  countQuotes line = 0%nat -> splitCells line = splitOn COMMA line.
Proof.
  induction line as [|c rest IH]; [reflexivity|].
  intros Hq. assert (Hrest : countQuotes rest = 0%nat).
  { unfold countQuotes in *. simpl in Hq.
    destruct (c =? DQ); simpl in Hq; [discriminate | exact Hq]. }
  cbn [splitCells splitOn]. unfold sepMatches.
  rewrite lookahead_even, Hrest, IH by exact Hrest.
  cbn [Nat.even]. rewrite andb_true_r. reflexivity.
Qed.

Lemma splitCells_without_quotes_witness :
  countQuotes (js "loteria,Triple,775,") = 0%nat
  /\ splitCells (js "loteria,Triple,775,")
     = splitOn COMMA (js "loteria,Triple,775,").
Proof.
  split; [reflexivity|].
  exact (splitCells_without_quotes (js "loteria,Triple,775,") eq_refl).
Defined.

(* ================================================================= *)
(** ** Trimming *)

(** X4: [trim] leaves a string that neither starts nor ends with white
    space, is empty exactly on the strings made of white space, and changes
    nothing when applied again; so no cell of a parsed row starts or ends
    with white space. *)
Theorem trim_no_outer_white_space (s : jsstring) :
  (forall c rest, trim s = c :: rest -> isWhiteSpace c = false)
  /\ (forall init c, trim s = init ++ [c] -> isWhiteSpace c = false)
  /\ (trim s = [] <-> forallb isWhiteSpace s = true)
  /\ trim (trim s) = trim s
  /\ (forall c rest, cleanCell s = c :: rest -> isWhiteSpace c = false)
  /\ (forall init c, cleanCell s = init ++ [c] -> isWhiteSpace c = false).
Proof.
  split; [apply trim_head|].
  split; [intros init c; apply trimEnd_last|].
  split; [|split; [|split]].
  - split.
    + intros E. apply trimStart_nil_blank. unfold trim in E.
      destruct (trimStart s) as [|c t] eqn:Es; [reflexivity|].
      rewrite (trimEnd_cons _ _ (trimStart_head _ _ _ Es)) in E.
      discriminate E.
    + intros Hs. unfold trim. rewrite (trimStart_blank _ Hs). reflexivity.
  - unfold trim at 1. rewrite trimStart_trim. unfold trim.
    apply trimEnd_idem.
  - intros c rest. apply trim_head.
  - intros init c. apply trimEnd_last.
Qed.

Lemma trim_no_outer_white_space_witness :
  trim (js "  a b " ++ [LF]) = js "a b"
  /\ isWhiteSpace 97 = false.
Proof.
  split; [reflexivity|].
  exact (proj1 (trim_no_outer_white_space (js "  a b " ++ [LF]))
           97 (js " b") eq_refl).
Defined.

(** X5: white space before and after the text does not change what
    [parseCSV] returns. *)
Theorem parseCSV_ignores_outer_white_space `{JsHost}
  (pre text post : jsstring) :
  forallb isWhiteSpace pre = true -> forallb isWhiteSpace post = true ->
  parseCSV (pre ++ text ++ post) = parseCSV text.
Proof.
  intros Hpre Hpost.
  rewrite (parseCSV_unfold (pre ++ text ++ post)), (parseCSV_unfold text).
  rewrite (trim_blank_around _ _ _ Hpre Hpost). reflexivity.
Qed.

Lemma parseCSV_ignores_outer_white_space_witness :
  parseCSV ([LF; SP] ++ scenarioText ++ [13; LF]) = parseCSV scenarioText.
Proof.
  exact (parseCSV_ignores_outer_white_space (H := asciiHost)
           [LF; SP] scenarioText [13; LF] eq_refl eq_refl).
Defined.

(* ================================================================= *)
(** ** Rows of irregular shape *)

Lemma assignFrom_cells_ext i headers r r' o :
  (forall j, (i <= j < i + length headers)%nat ->
             orElse (r !! j) [] = orElse (r' !! j) []) ->
  assignFrom i headers r o = assignFrom i headers r' o.
Proof.
  revert i o; induction headers as [|h rest IH]; intros i o Hext;
    [reflexivity|].
  cbn [assignFrom]. rewrite (Hext i) by (simpl; lia).
  apply IH. intros j Hj. apply Hext. simpl. lia.
Qed.

Lemma rowToRecord_ext headers r r' :
  assignCells headers r = assignCells headers r' ->
  rowToRecord headers r = rowToRecord headers r'.
Proof. unfold rowToRecord. intros ->. reflexivity. Qed.

(** X6: the cells of a row beyond its headers are not read, and a row
    shorter than its headers reads as if it went on with empty cells. *)
Theorem rowToRecord_irregular_rows (headers cells extra : list jsstring)
  (n : nat) :
  ((length headers <= length cells)%nat ->
   rowToRecord headers (cells ++ extra) = rowToRecord headers cells)
  /\ rowToRecord headers (cells ++ replicate n []) = rowToRecord headers cells.
Proof.
  split.
  - intros Hlen. apply rowToRecord_ext, assignFrom_cells_ext.
    intros j Hj. rewrite lookup_app_l by lia. reflexivity.
  - apply rowToRecord_ext, assignFrom_cells_ext. intros j _.
    destruct (Nat.lt_ge_cases j (length cells)) as [Hlt | Hge].
    + rewrite lookup_app_l by exact Hlt. reflexivity.
    + rewrite lookup_app_r, (lookup_ge_None_2 cells j) by exact Hge.
      destruct (replicate n [] !! (j - length cells)%nat) as [c|] eqn:E;
        [|reflexivity].
      apply lookup_replicate in E as [-> _]. reflexivity.
Qed.

Lemma rowToRecord_irregular_rows_witness :
  (length [js "loteria"] <= length [js "Triple"; js "x"])%nat
  /\ rowToRecord [js "loteria"] ([js "Triple"; js "x"] ++ [js "y"])
     = rowToRecord [js "loteria"] [js "Triple"; js "x"].
Proof.
  assert (Hlen : (length [js "loteria"] <= length [js "Triple"; js "x"])%nat)
    by (simpl; lia).
  split; [exact Hlen|].
  exact (proj1 (rowToRecord_irregular_rows [js "loteria"]
                  [js "Triple"; js "x"] [js "y"] 0) Hlen).
Defined.

Lemma lastIndexFrom_S i key headers :
  lastIndexFrom (S i) key headers = S <$> lastIndexFrom i key headers.
Proof.
  revert i; induction headers as [|h rest IH]; intros i; [reflexivity|].
  cbn [lastIndexFrom]. rewrite (IH (S i)), (IH i).
  destruct (lastIndexFrom i key rest); simpl; [reflexivity|].
  case_bool_decide; reflexivity.
Qed.

Lemma assignCells_cons h headers cells key :
  assignCells (h :: headers) cells !! key
  = match assignCells headers (tl cells) !! key with
    | Some v => Some v
    | None =>
        if bool_decide (h = key) then Some (orElse (head cells) []) else None
    end.
Proof.
  unfold assignCells. rewrite !assignFrom_lookup. cbn [lastIndexFrom].
  rewrite lastIndexFrom_S. rewrite lookup_empty.
  destruct (lastIndexFrom 0 key headers) as [j|]; simpl.
  - destruct cells; reflexivity.
  - case_bool_decide; [|reflexivity]. destruct cells; reflexivity.
Qed.

Lemma assignCells_drop_column hs1 h hs2 cs1 c cs2 key :
  length hs1 = length cs1 -> h <> key ->
  assignCells (hs1 ++ h :: hs2) (cs1 ++ c :: cs2) !! key
  = assignCells (hs1 ++ hs2) (cs1 ++ cs2) !! key.
Proof.
  revert cs1; induction hs1 as [|h1 hs1 IH]; intros [|c1 cs1] Hlen Hne;
    try discriminate.
  - cbn [app]. rewrite assignCells_cons. cbn [tl].
    rewrite bool_decide_eq_false_2 by exact Hne.
    destruct (assignCells hs2 cs2 !! key); reflexivity.
  - cbn [app]. rewrite !assignCells_cons. cbn [tl head].
    rewrite IH by (simpl in Hlen; congruence). reflexivity.
Qed.

(** X7: a column whose header is not a schema key changes no record:
    taking the column out of the headers and of the row gives the same
    record. *)
Theorem rowToRecord_ignores_unknown_column
  (hs1 hs2 cs1 cs2 : list jsstring) (h c : jsstring) :
  length hs1 = length cs1 -> ~ In h Object_keys ->
  rowToRecord (hs1 ++ h :: hs2) (cs1 ++ c :: cs2)
  = rowToRecord (hs1 ++ hs2) (cs1 ++ cs2).
Proof.
  intros Hlen Hh.
  assert (Hkey : forall key, In key Object_keys ->
            assignCells (hs1 ++ h :: hs2) (cs1 ++ c :: cs2) !! key
            = assignCells (hs1 ++ hs2) (cs1 ++ cs2) !! key).
  { intros key Hin. apply assignCells_drop_column; [exact Hlen|].
    intros ->. exact (Hh Hin). }
  unfold rowToRecord.
  rewrite !Hkey by (unfold Object_keys; simpl; tauto). reflexivity.
Qed.

Lemma rowToRecord_ignores_unknown_column_witness :
  rowToRecord ([js "loteria"] ++ js "premio" :: [js "animal"])
    ([js "Triple"] ++ js "100" :: [js "Cerdo"])
  = rowToRecord ([js "loteria"] ++ [js "animal"])
      ([js "Triple"] ++ [js "Cerdo"]).
Proof.
  apply (rowToRecord_ignores_unknown_column [js "loteria"] [js "animal"]
           [js "Triple"] [js "Cerdo"] (js "premio") (js "100") eq_refl).
  unfold Object_keys. simpl. intros Hin.
  repeat (destruct Hin as [Hin | Hin]; [discriminate Hin|]). exact Hin.
Defined.

(** X8: every record [parseCSV] returns has a category that is not empty,
    whatever the text. *)
Theorem parseCSV_category_never_empty `{JsHost} (text : jsstring) :
  exists records,
    parseCSV text = inr records
    /\ Forall (fun r => categoria r <> []) records.
Proof.
  eexists. split; [apply parseCSV_unfold|].
  apply (parseCSV_categoriesSet text), parseCSV_unfold.
Qed.

(* ================================================================= *)
(** ** More on the options and the filter *)

Lemma filter_sublist {A} (f : A -> bool) l : sublist (List.filter f l) l.
Proof.
  induction l as [|x l IH]; simpl; [constructor|].
  destruct (f x); [apply sublist_skip | apply sublist_cons]; exact IH.
Qed.

Lemma filter_idem {A} (f : A -> bool) l :
  List.filter f (List.filter f l) = List.filter f l.
Proof.
  rewrite filter_twice. apply List.filter_ext. intros x. apply andb_diag.
Qed.

Lemma spreadSetFrom_sublist seen arr : sublist (spreadSetFrom seen arr) arr.
Proof.
  revert seen; induction arr as [|x arr IH]; intros seen; simpl;
    [constructor|].
  case_bool_decide; [apply sublist_cons | apply sublist_skip]; apply IH.
Qed.

Lemma spreadSetFrom_NoDup_id seen l :
  List.NoDup l -> (forall x, In x l -> ~ In x seen) ->
  spreadSetFrom seen l = l.
Proof.
  intros Hnd. revert seen. induction Hnd as [|x l Hx Hnd IH]; intros seen Hs;
    [reflexivity|].
  simpl. rewrite bool_decide_eq_false_2.
  - f_equal. apply IH. intros y Hy [<- | Hin]; [exact (Hx Hy)|].
    exact (Hs y (or_intror Hy) Hin).
  - rewrite list_elem_of_In. apply Hs. left. reflexivity.
Qed.

(** X9: [uniq] keeps the first occurrence of each non-empty value in the
    order of the array, and applying it again changes nothing. *)
Theorem uniq_first_occurrences (arr : list jsstring) :
  sublist (uniq arr) arr
  /\ uniq (uniq arr) = uniq arr
  /\ (forall pre x post,
        arr = pre ++ x :: post -> x <> [] -> ~ In x pre ->
        exists pre' post',
          uniq arr = pre' ++ x :: post'
          /\ (forall y, In y pre' -> In y pre)).
Proof.
  split; [|split].
  - unfold uniq, spreadSet. etransitivity; [apply filter_sublist|].
    apply spreadSetFrom_sublist.
  - unfold uniq at 1. unfold spreadSet.
    rewrite spreadSetFrom_NoDup_id;
      [|apply uniq_NoDup|intros x _ []].
    unfold uniq. apply filter_idem.
  - intros pre x post -> Hx Hpre. unfold uniq, spreadSet.
    assert (Hgen : forall seen, ~ In x seen ->
              exists pre' post',
                List.filter truthy (spreadSetFrom seen (pre ++ x :: post))
                = pre' ++ x :: post'
                /\ (forall y, In y pre' -> In y pre)).
    { induction pre as [|p pre IH]; intros seen Hseen.
      - simpl. rewrite bool_decide_eq_false_2
          by (rewrite list_elem_of_In; exact Hseen).
        simpl. destruct x; [congruence|]. simpl.
        eexists [], _. split; [reflexivity|]. intros y [].
      - simpl. case_bool_decide.
        + destruct (IH (fun Hin => Hpre (or_intror Hin)) seen Hseen)
            as (pre' & post' & E & Hsub).
          exists pre', post'. split; [exact E|]. intros y Hy. right. auto.
        + destruct (IH (fun Hin => Hpre (or_intror Hin)) (p :: seen))
            as (pre' & post' & E & Hsub).
          { intros [-> | Hin]; [apply Hpre; left; reflexivity | auto]. }
          simpl. rewrite E. destruct (truthy p).
          * exists (p :: pre'), post'. split; [reflexivity|].
            intros y [<- | Hy]; [left; reflexivity | right; auto].
          * exists pre', post'. split; [reflexivity|].
            intros y Hy. right. auto. }
    apply Hgen. intros [].
Qed.

Lemma uniq_first_occurrences_witness :
  uniq [js "b"; []; js "a"; js "b"] = [js "b"; js "a"]
  /\ exists pre' post',
       uniq [js "b"; []; js "a"; js "b"] = pre' ++ js "a" :: post'
       /\ (forall y, In y pre' -> In y [js "b"; []]).
Proof.
  split; [reflexivity|].
  refine (proj2 (proj2 (uniq_first_occurrences [js "b"; []; js "a"; js "b"]))
            [js "b"; []] (js "a") [js "b"] eq_refl _ _).
  - discriminate.
  - intros [Hin | [Hin | []]]; discriminate Hin.
Defined.

Lemma sortBy_sorted_id (cmp : jsstring -> jsstring -> Z) (l : list jsstring) :
  StronglySorted (fun a b => (cmp a b <= 0)%Z) l -> sortBy cmp l = l.
Proof.
  induction 1 as [|x l Hs IH Hx]; [reflexivity|].
  simpl. rewrite IH. destruct l as [|y l]; [reflexivity|].
  simpl. inversion Hx as [|? ? Hxy _]; subst.
  destruct (Z.leb_spec (cmp x y) 0); [reflexivity | lia].
Qed.

(** X10: a list already in ascending order of [localeCompare] is left as it
    is by the sort, so sorting twice is sorting once. *)
Theorem sortBy_sorted_unchanged `{JsHost} (l : list jsstring) :
  (StronglySorted (fun a b => (localeCompare a b <= 0)%Z) l ->
   sortBy localeCompare l = l)
  /\ sortBy localeCompare (sortBy localeCompare l) = sortBy localeCompare l.
Proof.
  split; [apply sortBy_sorted_id|].
  apply sortBy_sorted_id, sortBy_sorted;
    [apply localeCompare_total | apply localeCompare_trans].
Qed.

Lemma sortBy_sorted_unchanged_witness :
  sortBy (localeCompare (JsHost := asciiHost)) [js "Chance"; js "Triple"]
  = [js "Chance"; js "Triple"].
Proof.
  apply (sortBy_sorted_unchanged (H := asciiHost)).
  repeat constructor. vm_compute. discriminate.
Defined.

Lemma sorted_same_members_eq (le : jsstring -> jsstring -> Prop)
  (l l' : list jsstring) :
  StronglySorted le l -> StronglySorted le l' ->
  List.NoDup l -> List.NoDup l' ->
  (forall x, In x l <-> In x l') ->
  (forall a b, In a l -> In b l -> le a b -> le b a -> a = b) ->
  l = l'.
Proof.
  intros Hs. revert l'.
  induction Hs as [|x t Hs IH Hx]; intros l' Hs' Hnd Hnd' Hmem Hanti.
  - destruct l' as [|y t']; [reflexivity|].
    destruct (proj2 (Hmem y) (or_introl eq_refl)).
  - destruct l' as [|y t'];
      [destruct (proj1 (Hmem x) (or_introl eq_refl))|].
    inversion Hs' as [|? ? Hs't Hy]; subst.
    inversion Hnd as [|? ? Hxt Hndt]; subst.
    inversion Hnd' as [|? ? Hyt Hndt']; subst.
    rewrite List.Forall_forall in Hx, Hy.
    assert (Hxy : x = y).
    { destruct (proj1 (Hmem x) (or_introl eq_refl)) as [E | Hin];
        [congruence|].
      destruct (proj2 (Hmem y) (or_introl eq_refl)) as [E | Hin'];
        [congruence|].
      apply Hanti; [left; reflexivity | right; exact Hin' | |].
      - apply Hx, Hin'.
      - apply Hy, Hin. }
    subst y. f_equal. apply IH; try assumption.
    + intros z. split; intros Hz.
      * destruct (proj1 (Hmem z) (or_intror Hz)) as [E | Hin];
          [subst z; contradiction | exact Hin].
      * destruct (proj2 (Hmem z) (or_intror Hz)) as [E | Hin];
          [subst z; contradiction | exact Hin].
    + intros a b Ha Hb. apply Hanti; right; assumption.
Qed.

(** X11: the options depend on the lottery names that occur, not on the
    order or the number of the rows: two sequences with the same names get
    lists that hold the same options, both in ascending order of the
    collation, hence the same list when the collation holds no two of the
    names equal; and deriving options is idempotent on its own result. *)
Theorem lotteryOptions_depend_on_names `{JsHost}
  (rows rows' : list LotRecord) :
  ((forall s, In s (List.map loteria rows) <-> In s (List.map loteria rows'))
   -> Permutation (lotteryOptions rows) (lotteryOptions rows')
      /\ StronglySorted (fun a b => (localeCompare a b <= 0)%Z)
           (lotteryOptions rows)
      /\ StronglySorted (fun a b => (localeCompare a b <= 0)%Z)
           (lotteryOptions rows')
      /\ ((forall a b,
             In a (lotteryOptions rows) -> In b (lotteryOptions rows) ->
             (localeCompare a b <= 0)%Z -> (localeCompare b a <= 0)%Z ->
             a = b)
          -> lotteryOptions rows = lotteryOptions rows'))
  /\ sortBy localeCompare (uniq (lotteryOptions rows)) = lotteryOptions rows.
Proof.
  assert (Hin : forall rs s,
            In s (lotteryOptions rs) <-> s <> [] /\ In s (List.map loteria rs)).
  { intros rs s. unfold lotteryOptions. rewrite <- uniq_In. split.
    - apply Permutation_in, Permutation_sym, sortBy_Permutation.
    - apply Permutation_in, sortBy_Permutation. }
  assert (Hnd : forall rs, List.NoDup (lotteryOptions rs)).
  { intros rs.
    apply (Permutation_NoDup (sortBy_Permutation _ _)), uniq_NoDup. }
  assert (Hsorted : forall rs,
            StronglySorted (fun a b => (localeCompare a b <= 0)%Z)
              (lotteryOptions rs)).
  { intros rs. apply sortBy_sorted;
      [apply localeCompare_total | apply localeCompare_trans]. }
  split.
  - intros Hsame.
    assert (Hmem : forall s,
              In s (lotteryOptions rows) <-> In s (lotteryOptions rows'))
      by (intros s; rewrite !Hin, Hsame; reflexivity).
    split; [|split; [apply Hsorted | split; [apply Hsorted|]]].
    + apply Permutation.NoDup_Permutation; [apply Hnd | apply Hnd | exact Hmem].
    + intros Hanti.
      apply (sorted_same_members_eq
               (fun a b => (localeCompare a b <= 0)%Z));
        auto.
  - assert (Hu : uniq (lotteryOptions rows) = lotteryOptions rows).
    { unfold uniq, spreadSet.
      rewrite spreadSetFrom_NoDup_id; [|apply Hnd|intros x _ []].
      apply List.forallb_filter_id. apply forallb_forall. intros s Hs.
      apply Hin in Hs as [Hne _]. destruct s; [congruence | reflexivity]. }
    rewrite Hu. apply sortBy_sorted_id, Hsorted.
Qed.

Lemma lotteryOptions_depend_on_names_witness :
  lotteryOptions (H := asciiHost) [cerdoRecord; tripleRecord]
  = lotteryOptions (H := asciiHost) [tripleRecord].
Proof.
  refine (proj2 (proj2 (proj2
            (proj1 (lotteryOptions_depend_on_names (H := asciiHost)
                      [cerdoRecord; tripleRecord] [tripleRecord]) _))) _).
  - intros s. simpl. tauto.
  - intros a b [<- | []] [<- | []] _ _. reflexivity.
Defined.

Lemma includes_trans s q q' :
  includes s q = true -> includes q q' = true -> includes s q' = true.
Proof.
  rewrite !includes_substring.
  intros (pre & suf & ->) (pre' & suf' & ->).
  exists (pre ++ pre'), (suf' ++ suf). rewrite <- !app_assoc. reflexivity.
Qed.

Lemma includes_nil_inv q : includes [] q = true -> q = [].
Proof. destruct q; [reflexivity | discriminate]. Qed.

(** X12: the filter keeps the order of the rows and drops some; with no
    lottery selected and no text it drops none; with a lottery selected
    every row it keeps has exactly that lottery; and filtering the result
    again with the same settings changes nothing. *)
Theorem queryFilter_stable_subsequence `{JsHost} (lot q : jsstring)
  (s : list LotRecord) :
  sublist (queryFilter lot q s) s
  /\ queryFilter [] [] s = s
  /\ (lot <> [] -> Forall (fun r => loteria r = lot) (queryFilter lot q s))
  /\ queryFilter lot q (queryFilter lot q s) = queryFilter lot q s.
Proof.
  unfold queryFilter. split; [apply filter_sublist|].
  split; [apply List.forallb_filter_id, forallb_forall; reflexivity|].
  split; [|apply filter_idem].
  intros Hlot. apply List.Forall_forall. intros r Hr.
  apply filter_In in Hr as [_ Hr]. unfold filterCallback in Hr.
  destruct lot; [congruence|]. cbn [truthy andb] in Hr.
  case_bool_decide; [assumption | discriminate].
Qed.

Lemma queryFilter_stable_subsequence_witness :
  js "Triple" <> []
  /\ Forall (fun r => loteria r = js "Triple")
       (queryFilter (H := asciiHost) (js "Triple") []
          [blankRecord; tripleRecord]).
Proof.
  assert (Hne : js "Triple" <> []) by discriminate.
  split; [exact Hne|].
  exact (proj1 (proj2 (proj2
           (queryFilter_stable_subsequence (H := asciiHost) (js "Triple") []
              [blankRecord; tripleRecord]))) Hne).
Defined.

(** X13: lengthening the search text never adds a result: when q' occurs
    inside q, every row found for q is found for q'. *)
Theorem queryFilter_longer_text_narrows `{JsHost} (lot q q' : jsstring)
  (s : list LotRecord) :
  includes q q' = true ->
  queryFilter lot q s = queryFilter lot q (queryFilter lot q' s)
  /\ sublist (queryFilter lot q s) (queryFilter lot q' s).
Proof.
  intros Hsub.
  assert (E : queryFilter lot q s = queryFilter lot q (queryFilter lot q' s)).
  { unfold queryFilter. rewrite filter_twice. apply List.filter_ext.
    intros r. unfold filterCallback.
    destruct (truthy lot && negb (bool_decide (loteria r = lot)));
      [reflexivity|].
    destruct q' as [|c q']; [reflexivity|]. cbn [truthy negb].
    destruct q as [|d q]; [discriminate Hsub|]. cbn [truthy negb].
    destruct (includes (toLowerCase (join [SP] (Object_values r))) (d :: q))
      eqn:Hq; [|symmetry; apply andb_false_r].
    rewrite (includes_trans _ _ _ Hq Hsub). reflexivity. }
  split; [exact E|]. rewrite E. apply filter_sublist.
Qed.

Lemma queryFilter_longer_text_narrows_witness :
  includes (js "cerdo") (js "cer") = true
  /\ sublist
       (queryFilter (H := asciiHost) [] (js "cerdo")
          [cerdoRecord; tripleRecord])
       (queryFilter (H := asciiHost) [] (js "cer")
          [cerdoRecord; tripleRecord]).
Proof.
  split; [reflexivity|].
  exact (proj2 (queryFilter_longer_text_narrows (H := asciiHost) []
                  (js "cerdo") (js "cer") [cerdoRecord; tripleRecord]
                  eq_refl)).
Defined.

(** X14: every lottery name [populateLotterySelect] computes into its list
    has a result: the filter run with that name and no search text keeps at
    least one row, and a row that carries that lottery. *)
Theorem lotteryOptions_have_results `{JsHost} (base : list LotRecord)
  (lot : jsstring) :
  In lot (lotteryOptions base) ->
  exists r, In r (queryFilter lot [] base) /\ loteria r = lot.
Proof.
  unfold lotteryOptions. intros Hin.
  apply (Permutation_in _ (Permutation_sym (sortBy_Permutation _ _))) in Hin.
  apply uniq_In in Hin as [Hne Hin].
  apply in_map_iff in Hin as (r & Hr & Hin).
  exists r. split; [|exact Hr]. unfold queryFilter.
  apply filter_In. split; [exact Hin|]. unfold filterCallback.
  rewrite bool_decide_eq_true_2 by exact Hr.
  rewrite andb_false_r. reflexivity.
Qed.

Lemma lotteryOptions_have_results_witness :
  In (js "Triple") (lotteryOptions (H := asciiHost) [tripleRecord])
  /\ exists r,
       In r (queryFilter (H := asciiHost) (js "Triple") [] [tripleRecord])
       /\ loteria r = js "Triple".
Proof.
  assert (Hin : In (js "Triple")
                  (lotteryOptions (H := asciiHost) [tripleRecord]))
    by (left; reflexivity).
  split; [exact Hin|].
  exact (lotteryOptions_have_results (H := asciiHost) [tripleRecord]
           (js "Triple") Hin).
Defined.

(* ================================================================= *)
(** ** Markup built from data *)

Lemma escapeUnit_cases c :
  (c = 38 /\ escapeUnit c = [38; 97; 109; 112; 59])
  \/ (c = 60 /\ escapeUnit c = [38; 108; 116; 59])
  \/ (c = 62 /\ escapeUnit c = [38; 103; 116; 59])
  \/ (c = 34 /\ escapeUnit c = [38; 113; 117; 111; 116; 59])
  \/ (c = 39 /\ escapeUnit c = [38; 35; 48; 51; 57; 59])
  \/ (escapeUnit c = [c] /\ c <> 38 /\ isMarkup c = false).
Proof.
  unfold escapeUnit, isMarkup, DQ.
  destruct (N.eqb_spec c 38) as [->|H38]; [left; split; reflexivity|].
  destruct (N.eqb_spec c 60) as [->|H60]; [right; left; split; reflexivity|].
  destruct (N.eqb_spec c 62) as [->|H62];
    [right; right; left; split; reflexivity|].
  destruct (N.eqb_spec c 34) as [->|H34];
    [right; right; right; left; split; reflexivity|].
  destruct (N.eqb_spec c 39) as [->|H39];
    [right; right; right; right; left; split; reflexivity|].
  repeat right. repeat split; assumption.
Qed.

Lemma escapeHtml_cons c s : escapeHtml (c :: s) = escapeUnit c ++ escapeHtml s.
Proof. reflexivity. Qed.

Lemma escapeHtml_app a b : escapeHtml (a ++ b) = escapeHtml a ++ escapeHtml b.
Proof.
  unfold escapeHtml. rewrite List.map_app, List.concat_app. reflexivity.
Qed.

Lemma countUnits_app p a b :
  countUnits p (a ++ b) = (countUnits p a + countUnits p b)%nat.
Proof. unfold countUnits. rewrite List.filter_app, length_app. reflexivity. Qed.

Lemma countUnits_escapeHtml s : countUnits isMarkup (escapeHtml s) = 0%nat.
Proof.
  induction s as [|c s IH]; [reflexivity|].
  rewrite escapeHtml_cons, countUnits_app, IH.
  destruct (escapeUnit_cases c)
    as [[_ ->]|[[_ ->]|[[_ ->]|[[_ ->]|[[_ ->]|(-> & _ & Hc)]]]]];
    try reflexivity.
  unfold countUnits. simpl. rewrite Hc. reflexivity.
Qed.

Lemma escapeUnit_prefix_inj x y a b :
  escapeUnit x ++ a = escapeUnit y ++ b -> x = y /\ a = b.
Proof.
  destruct (escapeUnit_cases x)
    as [[-> ->]|[[-> ->]|[[-> ->]|[[-> ->]|[[-> ->]|(-> & Hx & _)]]]]];
    destruct (escapeUnit_cases y)
      as [[-> ->]|[[-> ->]|[[-> ->]|[[-> ->]|[[-> ->]|(-> & Hy & _)]]]]];
    simpl; intros E; injection E; intros; subst;
    try discriminate; try congruence; split; reflexivity.
Qed.

(** X15: [escapeHtml] leaves no angle bracket and no quote in its result,
    changes nothing in a string free of the five characters it replaces,
    and works piece by piece. *)
Theorem escapeHtml_removes_markup (s t : jsstring) :
  countUnits isMarkup (escapeHtml s) = 0%nat
  /\ Forall (fun c => isMarkup c = false) (escapeHtml s)
  /\ (countUnits (fun c => isMarkup c || (c =? 38)) s = 0%nat ->
      escapeHtml s = s)
  /\ escapeHtml (s ++ t) = escapeHtml s ++ escapeHtml t.
Proof.
  split; [apply countUnits_escapeHtml|].
  split; [|split; [|apply escapeHtml_app]].
  - pose proof (countUnits_escapeHtml s) as H0. unfold countUnits in H0.
    apply List.Forall_forall. intros c Hc.
    destruct (isMarkup c) eqn:E; [|reflexivity].
    assert (Hin : In c (List.filter isMarkup (escapeHtml s)))
      by (apply filter_In; auto).
    destruct (List.filter isMarkup (escapeHtml s)); [destruct Hin|].
    discriminate H0.
  - unfold countUnits. induction s as [|c s IH]; [reflexivity|].
    simpl. destruct (isMarkup c || (c =? 38)) eqn:E; [discriminate|].
    intros Hs. rewrite escapeHtml_cons, (IH Hs).
    apply orb_false_elim in E as [Hm Ha]. apply N.eqb_neq in Ha.
    destruct (escapeUnit_cases c)
      as [[-> _]|[[-> _]|[[-> _]|[[-> _]|[[-> _]|(-> & _ & _)]]]]];
      try discriminate Hm; try congruence. reflexivity.
Qed.

Lemma escapeHtml_removes_markup_witness :
  countUnits (fun c => isMarkup c || (c =? 38)) (js "Triple Gana") = 0%nat
  /\ escapeHtml (js "Triple Gana") = js "Triple Gana".
Proof.
  split; [reflexivity|].
  exact (proj1 (proj2 (proj2
           (escapeHtml_removes_markup (js "Triple Gana") []))) eq_refl).
Defined.

(** X16: [escapeHtml] maps different strings to different strings, so two
    lottery names never share an option value. *)
Theorem escapeHtml_injective (a b : jsstring) :
  escapeHtml a = escapeHtml b -> a = b.
Proof.
  revert b; induction a as [|x a IH]; intros [|y b].
  - reflexivity.
  - rewrite escapeHtml_cons. intros E. exfalso.
    destruct (escapeUnit_cases y)
      as [[_ Hy]|[[_ Hy]|[[_ Hy]|[[_ Hy]|[[_ Hy]|(Hy & _ & _)]]]]];
      rewrite Hy in E; discriminate E.
  - rewrite escapeHtml_cons. intros E. exfalso.
    destruct (escapeUnit_cases x)
      as [[_ Hx]|[[_ Hx]|[[_ Hx]|[[_ Hx]|[[_ Hx]|(Hx & _ & _)]]]]];
      rewrite Hx in E; discriminate E.
  - rewrite !escapeHtml_cons. intros E.
    apply escapeUnit_prefix_inj in E as [-> E]. f_equal. apply IH, E.
Qed.

Lemma escapeHtml_injective_witness :
  escapeHtml (js "A&B") = escapeHtml ([65; 38; 66]) /\ js "A&B" = [65; 38; 66].
Proof.
  split; [reflexivity|].
  exact (escapeHtml_injective (js "A&B") [65; 38; 66] eq_refl).
Defined.

Lemma countUnits_tag label v :
  countUnits isMarkup label = 0%nat ->
  countUnits isMarkup (tag label v) = if truthy v then 10%nat else 0%nat.
Proof.
  intros Hl. unfold tag. destruct (truthy v); [|reflexivity].
  cbn [negb]. rewrite !countUnits_app, countUnits_escapeHtml, Hl.
  reflexivity.
Qed.

Lemma countUnits_cardHtml cat r :
  countUnits isMarkup (cardHtml cat r)
  = (40 + 10 * length (List.filter truthy (tagFields cat r)))%nat.
Proof.
  unfold cardHtml, tagFields. cbv zeta. case_bool_decide.
  - rewrite !countUnits_app, !countUnits_escapeHtml,
      !countUnits_tag by reflexivity.
    cbn [List.filter].
    destruct (truthy (numero r)), (truthy (animal r)); reflexivity.
  - rewrite !countUnits_app, !countUnits_escapeHtml,
      !countUnits_tag by reflexivity.
    cbn [List.filter].
    destruct (truthy (triple r)), (truthy (terminal_a_b r)),
      (truthy (terminal_c r)), (truthy (numero r)), (truthy (signo r)),
      (truthy (cacho r)); reflexivity.
Qed.

(** X17: in the markup of a card, and of the whole grid, the number of
    angle brackets and quotes is fixed by which tag fields are filled: no
    field value adds markup of its own. *)
Theorem cardHtml_markup_fixed (cat : jsstring) (r : LotRecord)
  (cards : list LotRecord) :
  countUnits isMarkup (cardHtml cat r)
  = (40 + 10 * length (List.filter truthy (tagFields cat r)))%nat
  /\ countUnits isMarkup (gridHtml cat cards)
     = (40 * length cards
        + 10 * length
                 (List.filter truthy
                    (List.concat (List.map (tagFields cat) cards))))%nat.
Proof.
  split; [apply countUnits_cardHtml|].
  unfold gridHtml. induction cards as [|c cards IH]; [reflexivity|].
  cbn [List.map List.concat length].
  rewrite countUnits_app, IH, countUnits_cardHtml, List.filter_app,
    length_app.
  lia.
Qed.

(** X18: the markup of the select has six angle brackets and quotes for
    the fixed first option and six for each lottery: no lottery name closes
    its attribute or opens an element. *)
Theorem optionsHtml_markup_fixed (lots : list jsstring) :
  countUnits isMarkup (optionsHtml lots) = (6 * S (length lots))%nat.
Proof.
  unfold optionsHtml. rewrite countUnits_app.
  assert (Hopts : countUnits isMarkup (List.concat (List.map optionHtml lots))
                  = (6 * length lots)%nat).
  { induction lots as [|l lots IH]; [reflexivity|].
    cbn [List.map List.concat length]. rewrite countUnits_app, IH.
    unfold optionHtml. rewrite !countUnits_app, !countUnits_escapeHtml.
    change (countUnits isMarkup (js "<option value=")) with 1%nat.
    change (countUnits isMarkup [DQ]) with 1%nat.
    change (countUnits isMarkup (js ">")) with 1%nat.
    change (countUnits isMarkup (js "</option>")) with 2%nat.
    lia. }
  rewrite Hopts.
  change (countUnits isMarkup
            (js "<option value=" ++ [DQ; DQ] ++ js ">Todas</option>"))
    with 6%nat.
  lia.
Qed.

(* ================================================================= *)
(** ** The page over its events *)

Lemma render_chrome st :
  status_text (els (render st)) = status_text (els st)
  /\ err_display (els (render st)) = err_display (els st)
  /\ err_text (els (render st)) = err_text (els st)
  /\ lastLoad_text (els (render st)) = lastLoad_text (els st)
  /\ refreshBtn_disabled (els (render st)) = refreshBtn_disabled (els st)
  /\ q_placeholder (els (render st)) = q_placeholder (els st).
Proof. unfold render. case_match; repeat split. Qed.

Lemma render_viewConsistent st : viewConsistent (render st).
Proof.
  unfold viewConsistent, render. cbv zeta.
  destruct (FILTERED st) as [|r l] eqn:E.
  - rewrite bool_decide_eq_false_2 by (simpl; lia). simpl.
    rewrite E. repeat split; try discriminate; congruence.
  - rewrite bool_decide_eq_true_2 by (simpl; lia). simpl.
    rewrite E. repeat split; try discriminate; congruence.
Qed.

Lemma viewConsistent_refresh st :
  viewConsistent st -> viewConsistent (loadFinished st).
Proof. intros Hv. exact Hv. Qed.

Ltac rewrite_fields H :=
  repeat match type of H with
         | _ /\ _ =>
             let H1 := fresh in
             destruct H as [H1 H]; rewrite ?H1; clear H1
         end;
  rewrite ?H; clear H.

Lemma loadFinished_fields st :
  RAW (loadFinished st) = RAW st
  /\ FILTERED (loadFinished st) = FILTERED st
  /\ CURRENT_CAT (loadFinished st) = CURRENT_CAT st
  /\ refreshBtn_disabled (els (loadFinished st)) = false
  /\ status_text (els (loadFinished st)) = status_text (els st)
  /\ lotSel_value (els (loadFinished st)) = lotSel_value (els st)
  /\ lotSel_options (els (loadFinished st)) = lotSel_options (els st)
  /\ q_value (els (loadFinished st)) = q_value (els st)
  /\ grid_display (els (loadFinished st)) = grid_display (els st)
  /\ grid_cards (els (loadFinished st)) = grid_cards (els st)
  /\ empty_display (els (loadFinished st)) = empty_display (els st)
  /\ err_display (els (loadFinished st)) = err_display (els st)
  /\ err_text (els (loadFinished st)) = err_text (els st)
  /\ lastLoad_text (els (loadFinished st)) = lastLoad_text (els st)
  /\ totalRows_text (els (loadFinished st)) = totalRows_text (els st)
  /\ countPill_text (els (loadFinished st)) = countPill_text (els st).
Proof. repeat split. Qed.

Lemma loadStarted_fields st :
  RAW (loadStarted st) = RAW st
  /\ FILTERED (loadStarted st) = FILTERED st
  /\ CURRENT_CAT (loadStarted st) = CURRENT_CAT st
  /\ lotSel_value (els (loadStarted st)) = lotSel_value (els st)
  /\ lotSel_options (els (loadStarted st)) = lotSel_options (els st)
  /\ q_value (els (loadStarted st)) = q_value (els st)
  /\ lastLoad_text (els (loadStarted st)) = lastLoad_text (els st)
  /\ grid_cards (els (loadStarted st)) = grid_cards (els st)
  /\ err_display (els (loadStarted st)) = false
  /\ err_text (els (loadStarted st)) = [].
Proof. repeat split. Qed.

Lemma loadStored_fields records now st :
  RAW (loadStored records now st) = records
  /\ CURRENT_CAT (loadStored records now st) = CURRENT_CAT st
  /\ err_display (els (loadStored records now st)) = false
  /\ err_text (els (loadStored records now st)) = []
  /\ status_text (els (loadStored records now st))
     = js "Listo. Datos cargados desde Google Sheets."
  /\ lastLoad_text (els (loadStored records now st)) = now.
Proof. repeat split. Qed.

Section Events.
Context `{JsHost}.

(** The result set is the one the controls and the dataset give. *)
Definition resultInSync (st : State) : Prop :=
  FILTERED st
  = queryFilter (lotSel_value (els st)) (toLowerCase (q_value (els st)))
      (rowsForCurrentCategory st).

Lemma applyFilters_chrome st :
  status_text (els (applyFilters st)) = status_text (els st)
  /\ err_display (els (applyFilters st)) = err_display (els st)
  /\ err_text (els (applyFilters st)) = err_text (els st)
  /\ lastLoad_text (els (applyFilters st)) = lastLoad_text (els st)
  /\ refreshBtn_disabled (els (applyFilters st))
     = refreshBtn_disabled (els st)
  /\ q_placeholder (els (applyFilters st)) = q_placeholder (els st).
Proof.
  unfold applyFilters. cbv zeta.
  match goal with
  | |- context [render ?x] =>
      destruct (render_chrome x) as (-> & -> & -> & -> & -> & ->)
  end.
  repeat split.
Qed.

Lemma applyFilters_resultInSync st : resultInSync (applyFilters st).
Proof.
  unfold resultInSync, rowsForCurrentCategory.
  destruct (applyFilters_globals st) as (-> & ->).
  destruct (applyFilters_controls st) as (-> & _ & ->).
  apply applyFilters_FILTERED.
Qed.

Lemma applyFilters_viewConsistent st : viewConsistent (applyFilters st).
Proof. unfold applyFilters. apply render_viewConsistent. Qed.

Lemma loadData_shape res now st :
  (exists message,
      loadData res now st = loadFinished (loadFailed message (loadStarted st))
      /\ message
         = match res with
           | NetworkFault m => m
           | Response _ _ => js "No se pudo cargar el CSV"
           end
      /\ forall body, res <> Response true body)
  \/ (exists text records,
        res = Response true text
        /\ parseCSV text = inr records
        /\ loadData res now st
           = loadFinished
               (setCategory (CURRENT_CAT st) (loadStored records now st))).
Proof.
  destruct res as [message | [|] body].
  - left. exists message. repeat split. discriminate.
  - right. eexists body, _. split; [reflexivity|].
    split; [apply parseCSV_unfold|].
    unfold loadData. rewrite parseCSV_unfold. reflexivity.
  - left. eexists. repeat split. discriminate.
Qed.

Lemma loadFailed_view message st :
  countPill_text (els (loadFailed message st)) = 0%nat
  /\ totalRows_text (els (loadFailed message st)) = 0%nat
  /\ grid_display (els (loadFailed message st)) = false
  /\ empty_display (els (loadFailed message st)) = true
  /\ grid_cards (els (loadFailed message st)) = grid_cards (els st).
Proof. repeat split. Qed.

Lemma loadFailed_chrome message st :
  err_display (els (loadFailed message st)) = true
  /\ err_text (els (loadFailed message st)) = message
  /\ status_text (els (loadFailed message st)) = js "Error cargando datos."
  /\ lastLoad_text (els (loadFailed message st)) = lastLoad_text (els st)
  /\ CURRENT_CAT (loadFailed message st) = CURRENT_CAT st
  /\ lotSel_value (els (loadFailed message st)) = lotSel_value (els st)
  /\ q_value (els (loadFailed message st)) = q_value (els st).
Proof.
  unfold loadFailed. cbv zeta.
  match goal with
  | |- context [render ?x] =>
      destruct (render_chrome x) as (-> & -> & -> & -> & _ & _);
      destruct (render_globals x) as (_ & _ & ->);
      destruct (render_controls x) as (-> & _ & ->)
  end.
  repeat split.
Qed.

Lemma setCategory_chrome cat st :
  status_text (els (setCategory cat st)) = status_text (els st)
  /\ err_display (els (setCategory cat st)) = err_display (els st)
  /\ err_text (els (setCategory cat st)) = err_text (els st)
  /\ lastLoad_text (els (setCategory cat st)) = lastLoad_text (els st)
  /\ q_placeholder (els (setCategory cat st)) = placeholderFor cat.
Proof.
  unfold setCategory. cbv zeta.
  match goal with
  | |- context [applyFilters ?x] =>
      destruct (applyFilters_chrome x) as (-> & -> & -> & -> & _ & ->)
  end.
  repeat split.
Qed.

Lemma setCategory_FILTERED cat st :
  FILTERED (setCategory cat st)
  = queryFilter [] (toLowerCase []) (forCategory cat (RAW st)).
Proof.
  unfold setCategory. cbv zeta. rewrite applyFilters_FILTERED. reflexivity.
Qed.

Lemma queryFilter_no_filters base :
  toLowerCase [] = [] -> queryFilter [] (toLowerCase []) base = base.
Proof.
  intros ->. unfold queryFilter.
  apply List.forallb_filter_id, forallb_forall. reflexivity.
Qed.

Lemma resultInSync_refresh st :
  resultInSync st -> resultInSync (loadFinished st).
Proof. intros Hs. exact Hs. Qed.

Lemma setCategory_resultInSync cat st : resultInSync (setCategory cat st).
Proof. unfold setCategory. cbv zeta. apply applyFilters_resultInSync. Qed.

Lemma loadFailed_resultInSync message st :
  resultInSync (loadFailed message st).
Proof.
  unfold resultInSync, rowsForCurrentCategory.
  destruct (loadFailed_outcome message st) as (-> & -> & _). reflexivity.
Qed.

Lemma loadData_resultInSync res now st : resultInSync (loadData res now st).
Proof.
  destruct (loadData_shape res now st)
    as [(message & -> & _) | (text & records & _ & _ & ->)];
    apply resultInSync_refresh;
    [apply loadFailed_resultInSync | apply setCategory_resultInSync].
Qed.

(** The select offers the lotteries of the active category, unless the
    dataset is empty. *)
Definition optionsInSync (st : State) : Prop :=
  RAW st = []
  \/ lotSel_options (els st)
     = lotteryOptions (forCategory (CURRENT_CAT st) (RAW st)).

Lemma optionsInSync_refresh st :
  optionsInSync st -> optionsInSync (loadFinished st).
Proof. intros Hs. exact Hs. Qed.

Lemma optionsInSync_lotSel_value v st :
  optionsInSync st -> optionsInSync (on_els (set_lotSel_value v) st).
Proof. intros Hs. exact Hs. Qed.

Lemma optionsInSync_q v p st :
  optionsInSync st -> optionsInSync (on_els (set_q v p) st).
Proof. intros Hs. exact Hs. Qed.

Lemma applyFilters_optionsInSync st :
  optionsInSync st -> optionsInSync (applyFilters st).
Proof.
  unfold optionsInSync.
  destruct (applyFilters_globals st) as (-> & ->).
  destruct (applyFilters_controls st) as (_ & -> & _). auto.
Qed.

Lemma setCategory_optionsInSync cat st : optionsInSync (setCategory cat st).
Proof.
  right. destruct (setCategory_globals cat st) as (-> & ->).
  apply setCategory_controls.
Qed.

Lemma loadFailed_optionsInSync message st :
  optionsInSync (loadFailed message st).
Proof. left. apply loadFailed_outcome. Qed.

Lemma loadData_optionsInSync res now st :
  optionsInSync (loadData res now st).
Proof.
  destruct (loadData_shape res now st)
    as [(message & -> & _) | (text & records & _ & _ & ->)];
    apply optionsInSync_refresh;
    [apply loadFailed_optionsInSync | apply setCategory_optionsInSync].
Qed.

Lemma setCategory_viewConsistent cat st : viewConsistent (setCategory cat st).
Proof. unfold setCategory. cbv zeta. apply applyFilters_viewConsistent. Qed.

Lemma loadFailed_viewConsistent message st :
  viewConsistent (loadFailed message st).
Proof. unfold loadFailed. cbv zeta. apply render_viewConsistent. Qed.

Lemma loadData_viewConsistent res now st :
  viewConsistent (loadData res now st).
Proof.
  destruct (loadData_shape res now st)
    as [(message & -> & _) | (text & records & _ & _ & ->)];
    apply viewConsistent_refresh;
    [apply loadFailed_viewConsistent | apply setCategory_viewConsistent].
Qed.

End Events.

(** X19: in every state the page reaches, the result set is exactly what
    the selected lottery, the lower-cased search text and the rows of the
    active category give: it is never out of date. *)
Theorem reachable_result_in_sync `{JsHost} (st : State) :
  reachable st ->
  FILTERED st
  = queryFilter (lotSel_value (els st)) (toLowerCase (q_value (els st)))
      (forCategory (CURRENT_CAT st) (RAW st)).
Proof.
  intros Hreach. change (resultInSync st).
  induction Hreach as [|res now st _ _|v st _ _|v st _ _|cat st _ IH].
  - reflexivity.
  - apply loadData_resultInSync.
  - apply applyFilters_resultInSync.
  - apply applyFilters_resultInSync.
  - unfold onTabClick. case_match; [exact IH|].
    apply setCategory_resultInSync.
Qed.

Lemma reachable_result_in_sync_witness :
  reachable (onQueryInput (H := asciiHost) (js "Cer")
               (loadData (H := asciiHost) (Response true scenarioText)
                  loadTime initialState))
  /\ FILTERED (onQueryInput (H := asciiHost) (js "Cer")
                 (loadData (H := asciiHost) (Response true scenarioText)
                    loadTime initialState))
     = queryFilter (H := asciiHost)
         (lotSel_value
            (els (onQueryInput (H := asciiHost) (js "Cer")
                    (loadData (H := asciiHost) (Response true scenarioText)
                       loadTime initialState))))
         (toLowerCase
            (q_value
               (els (onQueryInput (H := asciiHost) (js "Cer")
                       (loadData (H := asciiHost)
                          (Response true scenarioText) loadTime
                          initialState)))))
         (forCategory
            (CURRENT_CAT
               (onQueryInput (H := asciiHost) (js "Cer")
                  (loadData (H := asciiHost) (Response true scenarioText)
                     loadTime initialState)))
            (RAW
               (onQueryInput (H := asciiHost) (js "Cer")
                  (loadData (H := asciiHost) (Response true scenarioText)
                     loadTime initialState)))).
Proof.
  assert (Hr : reachable
                 (onQueryInput (H := asciiHost) (js "Cer")
                    (loadData (H := asciiHost) (Response true scenarioText)
                       loadTime initialState)))
    by exact (reach_query _ _ (reach_load _ _ _ reach_init)).
  split; [exact Hr|].
  exact (reachable_result_in_sync (H := asciiHost) _ Hr).
Defined.

(** X20: in every state the page reaches, the markup last given to the
    select is the one built from the lottery names of the rows of the
    active category, unless the dataset is empty. *)
Theorem reachable_options_in_sync `{JsHost} (st : State) :
  reachable st ->
  RAW st = []
  \/ lotSel_innerHTML (els st)
     = optionsHtml (lotteryOptions (forCategory (CURRENT_CAT st) (RAW st))).
Proof.
  intros Hreach.
  assert (Hsync : optionsInSync st).
  { induction Hreach as [|res now st _ _|v st _ IH|v st _ IH|cat st _ IH].
    - left. reflexivity.
    - apply loadData_optionsInSync.
    - apply applyFilters_optionsInSync, optionsInSync_lotSel_value, IH.
    - apply applyFilters_optionsInSync, optionsInSync_q, IH.
    - unfold onTabClick. case_match; [exact IH|].
      apply setCategory_optionsInSync. }
  destruct Hsync as [Hraw | Hopts]; [left; exact Hraw|].
  right. unfold lotSel_innerHTML. rewrite Hopts. reflexivity.
Qed.

Lemma reachable_options_in_sync_witness :
  RAW (loadData (H := asciiHost) (Response true scenarioText) loadTime
         initialState) = []
  \/ lotSel_innerHTML
       (els (loadData (H := asciiHost) (Response true scenarioText)
               loadTime initialState))
     = optionsHtml
         (lotteryOptions (H := asciiHost)
            (forCategory
               (CURRENT_CAT
                  (loadData (H := asciiHost) (Response true scenarioText)
                     loadTime initialState))
               (RAW (loadData (H := asciiHost) (Response true scenarioText)
                       loadTime initialState)))).
Proof.
  exact (reachable_options_in_sync (H := asciiHost) _
           (reach_load (Response true scenarioText) loadTime _ reach_init)).
Defined.

(** X21: after a load and after every change of a filter or of the tab,
    the counters show the sizes of the result set and of the dataset,
    exactly one of the grid and the empty notice is shown, and the grid is
    shown, holding the result set, exactly when there are results; a click
    on a tab keeps this. *)
Theorem events_keep_view_consistent `{JsHost} (st : State) :
  (forall res now, viewConsistent (loadData res now st))
  /\ (forall v, viewConsistent (onLotSelChange v st))
  /\ (forall v, viewConsistent (onQueryInput v st))
  /\ (forall cat, viewConsistent (setCategory cat st))
  /\ (forall cat, viewConsistent st -> viewConsistent (onTabClick cat st)).
Proof.
  split; [intros res now; apply loadData_viewConsistent|].
  split; [intros v; apply applyFilters_viewConsistent|].
  split; [intros v; apply applyFilters_viewConsistent|].
  split; [intros cat; apply setCategory_viewConsistent|].
  intros cat Hv. unfold onTabClick. case_match; [exact Hv|].
  apply setCategory_viewConsistent.
Qed.

Lemma events_keep_view_consistent_witness :
  viewConsistent (loadData (H := asciiHost) failedFetch loadTime
                    initialState)
  /\ viewConsistent
       (onTabClick (H := asciiHost) (js "animalitos")
          (loadData (H := asciiHost) failedFetch loadTime initialState)).
Proof.
  assert (Hv : viewConsistent
                 (loadData (H := asciiHost) failedFetch loadTime
                    initialState))
    by exact (proj1 (events_keep_view_consistent (H := asciiHost)
                       initialState) failedFetch loadTime).
  split; [exact Hv|].
  exact (proj2 (proj2 (proj2 (proj2
           (events_keep_view_consistent (H := asciiHost)
              (loadData (H := asciiHost) failedFetch loadTime
                 initialState)))))
           (js "animalitos") Hv).
Defined.

(** X22: a load that succeeds replaces the dataset by the parsed records,
    keeps the active category, empties both filters, gives the select the
    markup built from the lottery names of that category, hides the error,
    reports success with the time of the load and enables the button again;
    with a host that lower-cases the empty string to itself the result set
    is every row of the category. *)
Theorem loadData_success_outcome `{JsHost} (text now : jsstring)
  (st : State) :
  let st' := loadData (Response true text) now st in
  exists records,
    parseCSV text = inr records
    /\ RAW st' = records
    /\ CURRENT_CAT st' = CURRENT_CAT st
    /\ lotSel_value (els st') = [] /\ q_value (els st') = []
    /\ lotSel_innerHTML (els st')
       = optionsHtml (lotteryOptions (forCategory (CURRENT_CAT st) records))
    /\ (toLowerCase [] = [] ->
        FILTERED st' = forCategory (CURRENT_CAT st) records)
    /\ err_display (els st') = false /\ err_text (els st') = []
    /\ status_text (els st')
       = js "Listo. Datos cargados desde Google Sheets."
    /\ lastLoad_text (els st') = now
    /\ refreshBtn_disabled (els st') = false.
Proof.
  intros st'. subst st'.
  destruct (loadData_shape (Response true text) now st)
    as [(message & _ & _ & Hres) | (text' & records & [= <-] & Hp & ->)];
    [destruct (Hres text); reflexivity|].
  exists records. split; [exact Hp|]. unfold lotSel_innerHTML.
  pose proof (loadFinished_fields
                (setCategory (CURRENT_CAT st) (loadStored records now st)))
    as H1.
  pose proof (setCategory_globals (CURRENT_CAT st)
                (loadStored records now st)) as H2.
  pose proof (setCategory_controls (CURRENT_CAT st)
                (loadStored records now st)) as H3.
  pose proof (setCategory_chrome (CURRENT_CAT st)
                (loadStored records now st)) as H4.
  pose proof (setCategory_FILTERED (CURRENT_CAT st)
                (loadStored records now st)) as H5.
  pose proof (loadStored_fields records now st) as H6.
  rewrite_fields H1. rewrite_fields H2. rewrite_fields H3.
  rewrite_fields H4. rewrite_fields H5. rewrite_fields H6.
  repeat split. intros Hlow. apply queryFilter_no_filters, Hlow.
Qed.

Lemma loadData_success_outcome_witness :
  toLowerCase (JsHost := asciiHost) [] = []
  /\ exists records,
       parseCSV (H := asciiHost) scenarioText = inr records
       /\ FILTERED (loadData (H := asciiHost) (Response true scenarioText)
                      loadTime initialState)
          = forCategory (js "loteria") records.
Proof.
  split; [reflexivity|].
  destruct (loadData_success_outcome (H := asciiHost) scenarioText loadTime
              initialState)
    as (records & Hp & _ & _ & _ & _ & _ & Hf & _).
  exists records. split; [exact Hp|]. exact (Hf eq_refl).
Defined.

(** X23: a load that fails shows the error, with the message of the
    network fault or the fixed one for a refused response, empties the
    dataset and the result set, shows the empty notice with both counters
    at zero, and enables the button again; it keeps the active category,
    both filters, the time of the last load and the cards left in the
    hidden grid. *)
Theorem loadData_failure_outcome `{JsHost} (res : FetchResult)
  (now : jsstring) (st : State) :
  (forall body, res <> Response true body) ->
  let st' := loadData res now st in
  err_display (els st') = true
  /\ err_text (els st')
     = match res with
       | NetworkFault m => m
       | Response _ _ => js "No se pudo cargar el CSV"
       end
  /\ status_text (els st') = js "Error cargando datos."
  /\ refreshBtn_disabled (els st') = false
  /\ RAW st' = [] /\ FILTERED st' = []
  /\ countPill_text (els st') = 0%nat /\ totalRows_text (els st') = 0%nat
  /\ grid_display (els st') = false /\ empty_display (els st') = true
  /\ CURRENT_CAT st' = CURRENT_CAT st
  /\ lotSel_value (els st') = lotSel_value (els st)
  /\ q_value (els st') = q_value (els st)
  /\ lastLoad_text (els st') = lastLoad_text (els st)
  /\ grid_cards (els st') = grid_cards (els st).
Proof.
  intros Hres st'. subst st'.
  destruct (loadData_shape res now st)
    as [(message & -> & <- & _) | (text & records & -> & _ & _)];
    [|destruct (Hres text); reflexivity].
  pose proof (loadFinished_fields (loadFailed message (loadStarted st)))
    as H1.
  pose proof (loadFailed_outcome message (loadStarted st)) as H2.
  pose proof (loadFailed_chrome message (loadStarted st)) as H3.
  pose proof (loadFailed_view message (loadStarted st)) as H4.
  pose proof (loadStarted_fields st) as H5.
  rewrite_fields H1. rewrite_fields H2. rewrite_fields H3.
  rewrite_fields H4. rewrite_fields H5.
  repeat split.
Qed.

Lemma loadData_failure_outcome_witness :
  (forall body, Response false (js "Not Found") <> Response true body)
  /\ err_text (els (loadData (H := asciiHost)
                      (Response false (js "Not Found")) loadTime
                      initialState))
     = js "No se pudo cargar el CSV".
Proof.
  assert (Hres : forall body,
            Response false (js "Not Found") <> Response true body)
    by (intros body; discriminate).
  split; [exact Hres|].
  exact (proj1 (proj2 (loadData_failure_outcome (H := asciiHost)
                         (Response false (js "Not Found")) loadTime
                         initialState Hres))).
Defined.

(** X24: a click on the active tab, or on a tab without a category, changes
    nothing; a click on another tab makes it the active one, keeps the
    dataset, empties both filters, gives the select the markup built from
    the lottery names of the new category and, with a host that lower-cases
    the empty string to itself, shows every row of that category. *)
Theorem onTabClick_switches_category `{JsHost} (cat : jsstring)
  (st : State) :
  (cat = [] \/ cat = CURRENT_CAT st -> onTabClick cat st = st)
  /\ (cat <> [] -> cat <> CURRENT_CAT st ->
      let st' := onTabClick cat st in
      CURRENT_CAT st' = cat
      /\ RAW st' = RAW st
      /\ lotSel_value (els st') = [] /\ q_value (els st') = []
      /\ q_placeholder (els st') = placeholderFor cat
      /\ lotSel_innerHTML (els st')
         = optionsHtml (lotteryOptions (forCategory cat (RAW st)))
      /\ (toLowerCase [] = [] -> FILTERED st' = forCategory cat (RAW st))).
Proof.
  unfold onTabClick. split.
  - intros [-> | ->]; [reflexivity|].
    rewrite bool_decide_eq_true_2 by reflexivity.
    rewrite orb_true_r. reflexivity.
  - intros Hne Hcat. destruct cat as [|c cat]; [congruence|].
    rewrite bool_decide_eq_false_2 by exact Hcat. cbn [truthy negb orb].
    cbv zeta. unfold lotSel_innerHTML.
    pose proof (setCategory_globals (c :: cat) st) as H1.
    pose proof (setCategory_controls (c :: cat) st) as H2.
    pose proof (setCategory_chrome (c :: cat) st) as H3.
    pose proof (setCategory_FILTERED (c :: cat) st) as H4.
    rewrite_fields H1. rewrite_fields H2. rewrite_fields H3.
    rewrite_fields H4.
    repeat split. intros Hlow. apply queryFilter_no_filters, Hlow.
Qed.

Lemma onTabClick_switches_category_witness :
  onTabClick (H := asciiHost) (js "loteria") initialState = initialState
  /\ CURRENT_CAT (onTabClick (H := asciiHost) (js "animalitos") initialState)
     = js "animalitos".
Proof.
  split.
  - exact (proj1 (onTabClick_switches_category (H := asciiHost)
                    (js "loteria") initialState) (or_intror eq_refl)).
  - assert (H1 : js "animalitos" <> []) by discriminate.
    assert (H2 : js "animalitos" <> CURRENT_CAT initialState)
      by discriminate.
    exact (proj1 (proj2 (onTabClick_switches_category (H := asciiHost)
                           (js "animalitos") initialState) H1 H2)).
Defined.

(** X25: choosing a lottery or typing in the search box changes neither the
    dataset, nor the active category, nor the lotteries offered, nor the
    other filter; the new result set is the one the new setting gives. *)
Theorem filter_events_keep_the_rest `{JsHost} (v : jsstring) (st : State) :
  (let st' := onLotSelChange v st in
   RAW st' = RAW st /\ CURRENT_CAT st' = CURRENT_CAT st
   /\ lotSel_options (els st') = lotSel_options (els st)
   /\ lotSel_value (els st') = v
   /\ q_value (els st') = q_value (els st)
   /\ FILTERED st'
      = queryFilter v (toLowerCase (q_value (els st)))
          (forCategory (CURRENT_CAT st) (RAW st)))
  /\ (let st' := onQueryInput v st in
      RAW st' = RAW st /\ CURRENT_CAT st' = CURRENT_CAT st
      /\ lotSel_options (els st') = lotSel_options (els st)
      /\ lotSel_value (els st') = lotSel_value (els st)
      /\ q_value (els st') = v
      /\ FILTERED st'
         = queryFilter (lotSel_value (els st)) (toLowerCase v)
             (forCategory (CURRENT_CAT st) (RAW st))).
Proof.
  unfold onLotSelChange, onQueryInput. cbv zeta. split.
  - pose proof (applyFilters_globals (on_els (set_lotSel_value v) st)) as H1.
    pose proof (applyFilters_controls (on_els (set_lotSel_value v) st))
      as H2.
    pose proof (applyFilters_FILTERED (on_els (set_lotSel_value v) st))
      as H3.
    rewrite_fields H1. rewrite_fields H2. rewrite_fields H3.
    repeat split.
  - pose proof (applyFilters_globals
                  (on_els (set_q v (q_placeholder (els st))) st)) as H1.
    pose proof (applyFilters_controls
                  (on_els (set_q v (q_placeholder (els st))) st)) as H2.
    pose proof (applyFilters_FILTERED
                  (on_els (set_q v (q_placeholder (els st))) st)) as H3.
    rewrite_fields H1. rewrite_fields H2. rewrite_fields H3.
    repeat split.
Qed.

Lemma rowToRecord_blank_cells headers cells :
  Forall (fun c => c = []) cells -> rowToRecord headers cells = blankRecord.
Proof.
  intros Hblank.
  assert (Hkey : forall key d, orElse (assignCells headers cells !! key) d = d).
  { intros key d. rewrite orElse_assignCells. unfold cellUnder.
    destruct (lastIndexFrom 0 key headers) as [i|]; [|reflexivity].
    destruct (cells !! i) as [c|] eqn:E; [|reflexivity].
    rewrite List.Forall_forall in Hblank.
    rewrite (Hblank c); [reflexivity|].
    apply list_elem_of_In, list_elem_of_lookup. eauto. }
  unfold rowToRecord. rewrite !Hkey. reflexivity.
Qed.

(** X26: the records are as many as the line breaks of the trimmed text; a
    line without content, empty or made of empty cells only, is not skipped
    but gives a record with every field at its default. *)
Theorem parseCSV_blank_lines `{JsHost} (text : jsstring) :
  exists records,
    parseCSV text = inr records
    /\ length records = countUnits (fun c => c =? LF) (trim text)
    /\ forall k line,
         tl (splitOn LF (trim text)) !! k = Some line ->
         Forall (fun c => c = []) (splitRow line) ->
         records !! k = Some blankRecord.
Proof.
  eexists. split; [apply parseCSV_unfold|]. split.
  - rewrite length_map.
    pose proof (splitOn_join_roundtrip_length LF (trim text)) as Hlen.
    destruct (splitOn LF (trim text)); simpl in *; lia.
  - intros k line Hline Hblank.
    rewrite (map_lookup_Some _ _ _ _ Hline).
    rewrite (rowToRecord_blank_cells _ _ Hblank). reflexivity.
Qed.

Lemma parseCSV_blank_lines_witness :
  exists records,
    parseCSV (js "loteria,numero" ++ [LF; LF] ++ js "Triple,775")
    = inr records
    /\ records !! 0%nat = Some blankRecord.
Proof.
  destruct (parseCSV_blank_lines (H := asciiHost)
              (js "loteria,numero" ++ [LF; LF] ++ js "Triple,775"))
    as (records & Hp & _ & Hrows).
  exists records. split; [exact Hp|].
  apply (Hrows 0%nat []); [reflexivity|]. repeat constructor.
Defined.
